(** * nft-tutorial: the tznft contract commands ([src/contracts.ts],
      [src/bootstrap.ts])

    A shallow embedding of the command layer of the NFT tutorial client and
    the properties of its specification, checked against it.

    - JavaScript strings are Rocq [string]s: sequences of code units in the
      range 0..255.  [undefined] is [None].
    - [BigNumber] (bignumber.js) and [MichelsonMap] (taquito) are library
      types.  The first is kept abstract behind [BigNumberLib]; the second
      is a finite map ([gmap]), which is what its [set]/[get] implement (a
      key is looked up by its serialised value).
    - Promises, [async] functions and [console.log] are run in the monad
      [M]: a computation takes the state of the world, returns either a
      value or the reason of the rejection, and the world it leaves.  The
      world records the lines printed (without the colour codes of kleur)
      and the requests made to the collaborators: the alias resolver, the
      signer, the file loader, the shell and the node.
    - The collaborators themselves ([config-util], [config-aliases],
      taquito, async-retry's timing) are not part of these files; their
      answers are the fields of [Externals]. *)

From Stdlib Require Import ZArith String Ascii List Lia.
From stdpp Require Import base option list gmap strings pretty.

Local Open Scope string_scope.
Local Open Scope list_scope.

(** ** JavaScript string primitives *)

Module Js.

(** White space removed by [String.prototype.trim], among the code units
    0..255: TAB, LF, VT, FF, CR, SPACE and NO-BREAK SPACE. *)
Definition is_white_space (c : ascii) : bool :=
  let n := nat_of_ascii c in
  ((9 <=? n)%nat && (n <=? 13)%nat) || (n =? 32)%nat || (n =? 160)%nat.

Fixpoint trimStart (s : string) : string :=
  match s with
  | EmptyString => EmptyString
  | String c s' => if is_white_space c then trimStart s' else s
  end.

Fixpoint trimEnd (s : string) : string :=
  match s with
  | EmptyString => EmptyString
  | String c s' =>
      match trimEnd s' with
      | EmptyString => if is_white_space c then EmptyString else String c EmptyString
      | t => String c t
      end
  end.

(** [s.trim()] *)
Definition trim (s : string) : string := trimEnd (trimStart s).

(** [s.split(sep)] for a one-character separator: the pieces between the
    separators, in order; never empty ([''.split(',')] is [['']]). *)
Fixpoint split (sep : ascii) (s : string) : list string :=
  match s with
  | EmptyString => [EmptyString]
  | String c s' =>
      if Ascii.eqb c sep then EmptyString :: split sep s'
      else match split sep s' with
           | cur :: rest => String c cur :: rest
           | [] => [String c EmptyString]
           end
  end.

(** Truthiness of a value that is a string or [undefined]. *)
Definition truthy_string (v : option string) : bool :=
  match v with
  | Some (String _ _) => true
  | _ => false
  end.

End Js.

(** ** bignumber.js *)

(** The arbitrary-precision numbers of bignumber.js.  [bn_of_string] is
    [new BigNumber(v)] for [v] a string or [undefined] (in the library's
    default configuration it never throws: what does not parse is NaN);
    [bn_of_number] is [new BigNumber(n)] for a number literal.  Equality on
    [BigNumber] is equality of the numeric value, which is how a
    [MichelsonMap] compares its keys. *)
Class BigNumberLib := {
  BigNumber : Type;
  BigNumber_eq_dec :: EqDecision BigNumber;
  BigNumber_countable :: Countable BigNumber;
  bn_of_string : option string -> BigNumber;
  bn_of_number : Z -> BigNumber;
  bn_toString : BigNumber -> string
}.

(** An instance to run the definitions on: integers, [None] for NaN.  It
    reads plain decimal digit strings, which is all the examples below feed
    it; every other string and [undefined] is NaN. *)
Module DecimalBigNumber.

Definition digit (c : ascii) : option Z :=
  let n := nat_of_ascii c in
  if ((48 <=? n)%nat && (n <=? 57)%nat) then Some (Z.of_nat n - 48)%Z else None.

Fixpoint digits (acc : Z) (s : string) : option Z :=
  match s with
  | EmptyString => Some acc
  | String c s' =>
      match digit c with
      | Some d => digits (10 * acc + d)%Z s'
      | None => None
      end
  end.

Definition of_string (v : option string) : option Z :=
  match v with
  | Some (String c s') => digits 0 (String c s')
  | _ => None
  end.

Definition lib : BigNumberLib :=
  {| BigNumber := option Z;
     bn_of_string := of_string;
     bn_of_number := Some;
     bn_toString := fun v => match v with Some z => pretty z | None => "NaN" end |}.

End DecimalBigNumber.

(** ** The FA2 data model ([fa2-interface]) and the pure compilers *)

Section Compilers.

Context `{BN : BigNumberLib}.

(** Fields read out of a descriptor are strings, or [undefined] when the
    descriptor has too few commas. *)
Record Fa2TransferDestination := {
  to_ : option string;
  dest_token_id : BigNumber;
  amount : BigNumber
}.

Record Fa2Transfer := {
  from_ : option string;
  txs : list Fa2TransferDestination
}.

Record TokenMetadata := {
  token_id : BigNumber;
  symbol : option string;
  name : option string;
  decimals : BigNumber;
  extras : gmap string string
}.

Record OperatorParam := {
  op_owner : string;
  op_operator : string;
  op_token_id : BigNumber
}.

Record BalanceOfRequest := {
  req_token_id : BigNumber;
  req_owner : string
}.

Record BalanceOfResponse := {
  balance : BigNumber;
  request : BalanceOfRequest
}.

Record NftStorage := {
  ledger : gmap BigNumber string;
  operators : gmap (string * string * BigNumber) unit;
  token_metadata : gmap BigNumber TokenMetadata
}.

(** [descriptor.split(',').map(p => p.trim())] *)
Definition fields (descriptor : string) : list string :=
  Js.trim <$> Js.split "," descriptor.

(** The token a descriptor parses to: the [token] of [parseTokens],
    after the conditional [extras.set]. *)
Definition parseTokens_token (descriptor : string) : TokenMetadata :=
  let parts := fields descriptor in
  let id := parts !! 0%nat in
  let symbol := parts !! 1%nat in
  let name := parts !! 2%nat in
  let ipfcCid := parts !! 3%nat in
  let new_extras : gmap string string := ∅ in
  {| token_id := bn_of_string id;
     symbol := symbol;
     name := name;
     decimals := bn_of_number 0;
     extras :=
       match ipfcCid with
       | Some cid =>
           if Js.truthy_string ipfcCid
           then <["ipfs_cid" := cid]> new_extras
           else new_extras
       | None => new_extras
       end |}.

(** [parseTokens], contracts.ts 79-93. *)
Definition parseTokens (descriptor : string) (tokens : list TokenMetadata)
  : list TokenMetadata :=
  let token := parseTokens_token descriptor in
  [token] ++ tokens.

(** The single-destination transfer a descriptor parses to. *)
Definition parseTransfer_tx (description : string) : Fa2Transfer :=
  let parts := fields description in
  let from_ := parts !! 0%nat in
  let to_ := parts !! 1%nat in
  let token_id := parts !! 2%nat in
  {| from_ := from_;
     txs := [ {| to_ := to_;
                 dest_token_id := bn_of_string token_id;
                 amount := bn_of_number 1 |} ] |}.

(** [parseTransfers], contracts.ts 205-227.  The merge branch assigns
    [batch[0].txs] in place and returns the same array; the other branch
    returns a new array.  Only the returned batch is modelled. *)
Definition parseTransfers (description : string) (batch : list Fa2Transfer)
  : list Fa2Transfer :=
  let tx := parseTransfer_tx description in
  match batch with
  | b0 :: rest =>
      if decide (from_ b0 = from_ tx)
      then {| from_ := from_ b0; txs := txs b0 ++ txs tx |} :: rest
      else batch ++ [tx]
  | [] => batch ++ [tx]
  end.

(** [createNftStorage], contracts.ts 95-107: one pass over the tokens
    that sets both maps. *)
Definition createNftStorage_step (owner : string)
    (acc : gmap BigNumber string * gmap BigNumber TokenMetadata)
    (meta : TokenMetadata)
  : gmap BigNumber string * gmap BigNumber TokenMetadata :=
  (<[token_id meta := owner]> (fst acc), <[token_id meta := meta]> (snd acc)).

Definition createNftStorage (tokens : list TokenMetadata) (owner : string)
  : NftStorage :=
  let maps := foldl (createNftStorage_step owner) (∅, ∅) tokens in
  {| ledger := fst maps;
     operators := ∅;
     token_metadata := snd maps |}.

(** The batch the command line builds: the option processor is called
    with each descriptor and the batch so far, starting from [[]]. *)
Definition compile_transfers (descriptions : list string) : list Fa2Transfer :=
  foldl (fun batch d => parseTransfers d batch) [] descriptions.

End Compilers.

(** ** Values, failures and the world *)

(** What [config.get] can return: JSON values, and [undefined] for a key
    that is not set. *)
Inductive jsval :=
| JUndefined
| JNull
| JBool (b : bool)
| JNumber (z : Z)
| JString (s : string)
| JObject.

(** [!v] is [negb (truthy v)]. *)
Definition truthy (v : jsval) : bool :=
  match v with
  | JUndefined | JNull => false
  | JBool b => b
  | JNumber z => negb (z =? 0)%Z
  | JString s => Js.truthy_string (Some s)
  | JObject => true
  end.

(** The configuration store as the commands use it: keys (dotted paths) to
    values. *)
Abbreviation Configstore := (gmap string jsval).

(** [config.get(key)] *)
Definition config_get (config : Configstore) (key : string) : jsval :=
  default JUndefined (config !! key).

(** The reason a promise is rejected with, or the value thrown. *)
#[warning="-register-all"]
Inductive failure :=
| Reject_undefined                     (* [reject()] *)
| Reject_string (s : string)           (* [Promise.reject('...')] *)
| Throw_Error (msg : string)           (* [throw new Error(msg)] *)
| External (e : string)                (* raised by a collaborator: RPC, signer, aliases, files *)
| RetryExhausted (errors : list failure).
    (* async-retry gave up after these errors, oldest first; it rejects
       with the [mainError] of the list, which is one of them *)

Inductive outcome (E A : Type) :=
| Ok (a : A)
| Err (e : E).
Arguments Ok {E A} a.
Arguments Err {E A} e.

(** How a promise settles, or a synchronous call ends. *)
Abbreviation result := (outcome failure).

(** What a collaborator answers: a value, or an error of its own, which is
    opaque here and reaches the caller as [External]. *)
Abbreviation answer := (outcome string).

Definition is_ok {E A} (r : outcome E A) : bool :=
  match r with Ok _ => true | Err _ => false end.

Record InMemorySigner := { secret_key : string }.

(** The handle [createToolkitFromSigner] configures with [setProvider]. *)
Record TezosToolkit := {
  tk_url : jsval;
  tk_signer : InMemorySigner;
  tk_rpc : jsval;
  confirmationPollingIntervalSecond : Z
}.

Record ExecResult := {
  exec_err : bool;
  stdout : string;
  errout : string
}.

Section Commands.

Context `{BN : BigNumberLib}.

(** [{ code, init }] when the storage is a string, [{ code, storage }]
    when it is an object. *)
Inductive OrigParam :=
| CodeInit (code init : string)
| CodeStorage (code : string) (storage : NftStorage).

(** A request to a collaborator outside this module. *)
Inductive event :=
| EvExec (cmd : string)
| EvResolveSigner (alias : string)
| EvResolveAddress (alias : string)
| EvPublicKeyHash (signer : InMemorySigner)
| EvLoadFile (path : string)
| EvGetBlockHeader (block : string)
| EvOriginate (p : OrigParam)
| EvOriginationContract (op : string)
| EvContractAt (address : string)
| EvQuerySend (inspector nft : string) (requests : list BalanceOfRequest)
| EvConfirmation (op : string)
| EvStorage (address : string)
| EvConfigSet (key : string) (v : jsval).

Definition is_header_request (ev : event) : bool :=
  match ev with
  | EvGetBlockHeader _ => true
  | _ => false
  end.

(** How many block-header requests a history holds. *)
Definition header_requests (h : list event) : nat :=
  length (filter (fun ev => is_header_request ev = true) h).

Record World := {
  store : Configstore;        (* the user's configuration, behind [loadUserConfig()] *)
  console : list string;      (* lines of [console.log], oldest first *)
  trace : list event          (* requests made so far, oldest first *)
}.

(** The collaborators.  What a network or process request answers may
    depend on the requests made before it, which it is given. *)
Class Externals := {
  (* config-util *)
  activeNetworkKey : Configstore -> string;
  inspectorKey : Configstore -> string;
  suggestCommand : string -> list string;
  loadFile : string -> answer string;
  (* config-aliases *)
  resolveAlias2Signer : string -> Configstore -> answer InMemorySigner;
  resolveAlias2Address : string -> Configstore -> answer string;
  (* node and JavaScript built-ins *)
  path_join_dirname : string -> string;
  kleur_text : jsval -> string;
  JSON_stringify : failure -> string;
  JSON_stringify_indent : failure -> string;
  child_exec : list event -> string -> ExecResult;
  (* taquito *)
  publicKeyHash : InMemorySigner -> answer string;
  rpc_getBlockHeader : list event -> TezosToolkit -> string -> answer unit;
  contract_originate : list event -> TezosToolkit -> OrigParam -> answer string;
  originationOp_contract : list event -> string -> answer string;
  contract_at : list event -> TezosToolkit -> string -> answer unit;
  query_send : list event -> string -> string -> list BalanceOfRequest -> answer string;
  op_confirmation : list event -> string -> answer unit;
  inspector_storage : list event -> string -> answer (option (list BalanceOfResponse))
}.

Context `{EXT : Externals}.

(** *** The monad of asynchronous computations *)

Definition M (A : Type) : Type := World -> result A * World.

Definition ret {A} (a : A) : M A := fun w => (Ok a, w).

Definition fail {A} (e : failure) : M A := fun w => (Err e, w).

Definition bind {A B} (m : M A) (k : A -> M B) : M B :=
  fun w =>
    match m w with
    | (Ok a, w') => k a w'
    | (Err e, w') => (Err e, w')
    end.

(** [try { m } catch (e) { handler }] *)
Definition try_catch {A} (m : M A) (handler : failure -> M A) : M A :=
  fun w =>
    match m w with
    | (Ok a, w') => (Ok a, w')
    | (Err e, w') => handler e w'
    end.

Definition log (line : string) : M unit :=
  fun w => (Ok tt, {| store := store w; console := console w ++ [line]; trace := trace w |}).

Definition log_all (lines : list string) : M unit :=
  fun w => (Ok tt, {| store := store w; console := console w ++ lines; trace := trace w |}).

(** A request: its answer is read off the requests made so far, and the
    request is recorded. *)
Definition call {A} (ev : event) (ans : list event -> answer A) : M A :=
  fun w => (match ans (trace w) with
            | Ok a => Ok a
            | Err e => Err (External e)
            end,
            {| store := store w; console := console w; trace := trace w ++ [ev] |}).

Definition loadUserConfig : M Configstore := fun w => (Ok (store w), w).

(** [config.set(key, v)] *)
Definition config_set (key : string) (v : jsval) : M unit :=
  fun w => (Ok tt,
            {| store := <[key := v]> (store w);
               console := console w;
               trace := trace w ++ [EvConfigSet key v] |}).

(** [x ← m; k] awaits [m] and goes on with its value; [m ;; k] awaits it
    for its effects. *)
#[local] Instance M_ret : MRet M := @ret.
#[local] Instance M_bind : MBind M := fun A B k m => bind m k.

(** [Promise.all] over promises that are already running: each runs to
    its end whatever the others do.  The join is fulfilled with all the
    values, in order, when all are fulfilled, and rejected when one is
    rejected; of several reasons the first in array order is reported. *)
Fixpoint Promise_all {A} (ps : list (M A)) : M (list A) :=
  match ps with
  | [] => ret []
  | p :: ps' =>
      fun w =>
        let (r, w1) := p w in
        let (rs, w2) := Promise_all ps' w1 in
        (match r, rs with
         | Ok a, Ok l => Ok (a :: l)
         | Err e, _ => Err e
         | Ok _, Err e => Err e
         end, w2)
  end.

(** [retry(fn, { retries })] of async-retry: [fn] is attempted, and
    attempted again after each failure while retries are left
    ([timeouts] of them); the waits between attempts are not modelled. *)
Fixpoint retry_attempt {A} (fn : M A) (timeouts : nat) (errors : list failure)
  : M A :=
  fun w =>
    match fn w with
    | (Ok a, w') => (Ok a, w')
    | (Err e, w') =>
        match timeouts with
        | O => (Err (RetryExhausted (errors ++ [e])), w')
        | S n => retry_attempt fn n (errors ++ [e]) w'
        end
    end.

Definition retry {A} (fn : M A) (retries : nat) : M A :=
  retry_attempt fn retries [].

(** *** contracts.ts *)

(** [createToolkitFromSigner], contracts.ts 27-48. *)
Definition createToolkitFromSigner (signer : InMemorySigner) (config : Configstore)
  : M TezosToolkit :=
  let pk := activeNetworkKey config +:+ ".providerUrl" in
  let providerUrl := config_get config pk in
  if negb (truthy providerUrl) then
    let msg := "network provider for "
               +:+ kleur_text (config_get config "activeNetwork")
               +:+ " URL is not configured" in
    log msg ;;
    fail (Throw_Error msg)
  else
    ret {| tk_url := providerUrl;
           tk_signer := signer;
           tk_rpc := providerUrl;
           confirmationPollingIntervalSecond := 5 |}.

(** [createToolkit], contracts.ts 19-25. *)
Definition createToolkit (address_or_alias : string) (config : Configstore)
  : M TezosToolkit :=
  signer ← call (EvResolveSigner address_or_alias)
              (fun _ => resolveAlias2Signer address_or_alias config);
  createToolkitFromSigner signer config.

(** The [storage] argument of [originateContract]: a string or an object. *)
Inductive storage_arg :=
| StorageString (s : string)
| StorageObject (st : NftStorage).

(** [typeof storage === 'string' ? { code, init: storage } : { code, storage }] *)
Definition origParam_of (code : string) (storage : storage_arg) : OrigParam :=
  match storage with
  | StorageString init => CodeInit code init
  | StorageObject st => CodeStorage code st
  end.

(** [originateContract], contracts.ts 318-335. *)
Definition originateContract (tz : TezosToolkit) (code : string)
    (storage : storage_arg) (name : string) : M string :=
  let origParam := origParam_of code storage in
  try_catch
    (originationOp ← call (EvOriginate origParam)
                        (fun h => contract_originate h tz origParam);
     address ← call (EvOriginationContract originationOp)
                  (fun h => originationOp_contract h originationOp);
     ret address)
    (fun error =>
       let jsonError := JSON_stringify_indent error in
       log (name +:+ " origination error " +:+ jsonError) ;;
       fail error).

(** [originateInspector], contracts.ts 50-54. *)
Definition originateInspector (tezos : TezosToolkit) : M string :=
  let path := path_join_dirname "../ligo/out/inspector.tz" in
  code ← call (EvLoadFile path) (fun _ => loadFile path);
  let storage := "(Left Unit)" in
  originateContract tezos code (StorageString storage) "inspector".

(** [mintNfts], contracts.ts 56-77. *)
Definition mintNfts (owner : string) (tokens : list TokenMetadata) : M unit :=
  if (length tokens =? 0)%nat then
    fail (Reject_string "there are no token definitions provided")
  else
    config ← loadUserConfig;
    tz ← createToolkit owner config;
    ownerAddress ← call (EvPublicKeyHash (tk_signer tz))
                      (fun _ => publicKeyHash (tk_signer tz));
    let path := path_join_dirname "../ligo/out/fa2_fixed_collection_token.tz" in
    code ← call (EvLoadFile path) (fun _ => loadFile path);
    let storage := createNftStorage tokens ownerAddress in
    log "originating new NFT contract..." ;;
    nftAddress ← originateContract tz code (StorageObject storage) "nft";
    log ("originated NFT collection " +:+ nftAddress).

(** [printBalances], contracts.ts 148-159. *)
Definition printBalances (balances : list BalanceOfResponse) : M unit :=
  log "requested NFT balances:" ;;
  log_all
    ((fun b =>
        "owner: " +:+ req_owner (request b)
        +:+ "	token: " +:+ bn_toString (req_token_id (request b))
        +:+ "	balance: " +:+ bn_toString (balance b)) <$> balances).

(** [showBalances], contracts.ts 109-146. *)
Definition showBalances (signer nft owner : string) (tokens : list string)
  : M unit :=
  config ← loadUserConfig;
  tz ← createToolkit signer config;
  ownerAddress ← call (EvResolveAddress owner)
                    (fun _ => resolveAlias2Address owner config);
  nftAddress ← call (EvResolveAddress nft)
                  (fun _ => resolveAlias2Address nft config);
  let requests :=
    (fun t => {| req_token_id := bn_of_string (Some t); req_owner := ownerAddress |})
      <$> tokens in
  match config_get config (inspectorKey config) with
  | JString (String c a as inspectorAddress) =>
      log ("querying NFT contract " +:+ nftAddress
           +:+ " using balance inspector " +:+ inspectorAddress) ;;
      call (EvContractAt inspectorAddress)
        (fun h => contract_at h tz inspectorAddress) ;;
      balanceOp ← call (EvQuerySend inspectorAddress nftAddress requests)
                     (fun h => query_send h inspectorAddress nftAddress requests);
      call (EvConfirmation balanceOp) (fun h => op_confirmation h balanceOp) ;;
      storage ← call (EvStorage inspectorAddress)
                   (fun h => inspector_storage h inspectorAddress);
      match storage with
      | Some state => printBalances state
      | None =>
          log "invalid inspector storage state" ;;
          fail (Reject_string "Invalid inspector storage state Empty.")
      end
  | _ =>
      (* [!inspectorAddress || typeof inspectorAddress !== 'string'] *)
      log "Cannot find deployed balance inspector contract." ;;
      log_all (suggestCommand "bootstrap") ;;
      ret tt
  end.

(** The callback of [resolveOperators], contracts.ts 296-314.  [split]
    never returns an empty array, so [op] is always a string. *)
Definition resolveOperator (owner : string) (config : Configstore) (o : string)
  : M OperatorParam :=
  try_catch
    (let parts := Js.split "," o in
     let op := default EmptyString (parts !! 0%nat) in
     let token := parts !! 1%nat in
     operator ← call (EvResolveAddress op)
                   (fun _ => resolveAlias2Address op config);
     let token_id := bn_of_string token in
     ret {| op_owner := owner; op_operator := operator; op_token_id := token_id |})
    (fun e =>
       log ("cannot parse operator definition " +:+ o) ;;
       log "correct operator format is 'operator_alias_or_address, token_id'" ;;
       fail e).

(** [resolveOperators], contracts.ts 291-316. *)
Definition resolveOperators (owner : string) (operators : list string)
    (config : Configstore) : M (list OperatorParam) :=
  let resolved := resolveOperator owner config <$> operators in
  Promise_all resolved.

(** *** bootstrap.ts *)

(** The function [startSandbox] hands to [retry], bootstrap.ts 51-54. *)
Definition startSandbox_probe (toolkit : TezosToolkit) : M unit :=
  log "rpc..." ;;
  call (EvGetBlockHeader "2") (fun h => rpc_getBlockHeader h toolkit "2").

(** [startSandbox], bootstrap.ts 28-58. *)
Definition startSandbox : M unit :=
  let cmd := "sh ../../nft-contracts/flextesa/start-sandbox.sh" in
  r ← call (EvExec cmd) (fun h => Ok (child_exec h cmd));
  (if exec_err r
   then log "failed to start sandbox" ;;
        log (errout r) ;;
        fail Reject_undefined
   else log (stdout r)) ;;
  log "starting sandbox..." ;;
  config ← loadUserConfig;
  toolkit ← createToolkit "bob" config;
  retry (startSandbox_probe toolkit) 8 ;;
  log "sandbox started".

(** [originateBalanceInspector], bootstrap.ts 80-96. *)
Definition originateBalanceInspector (config : Configstore) (orig_alias : string)
  : M unit :=
  log "originating balance inspector contract..." ;;
  tezos ← createToolkit orig_alias config;
  inspectorAddress ← originateInspector tezos;
  config_set (inspectorKey config) (JString inspectorAddress) ;;
  log ("originated balance inspector " +:+ inspectorAddress).

(** [bootstrap], bootstrap.ts 8-20. *)
Definition bootstrap : M unit :=
  try_catch
    (config ← loadUserConfig;
     let network := config_get config "activeNetwork" in
     (match network with
      | JString "sandbox" => startSandbox
      | _ => ret tt
      end) ;;
     originateBalanceInspector config "bob")
    (fun err =>
       log ("failed to start. " +:+ JSON_stringify err) ;;
       fail err).

End Commands.

(** ** A small world to run the commands in

    Aliases [bob], [alice] and [nft] are defined; the node answers the
    first [failing_headers] block-header requests with an error and the
    later ones with a header; an origination is accepted or rejected as
    [accept_origination] says; the sandbox scripts succeed. *)

Module Demo.

#[export] Existing Instance DecimalBigNumber.lib.

Definition network_key (config : Configstore) : string :=
  match config_get config "activeNetwork" with
  | JString network => "availableNetworks." +:+ network
  | _ => "availableNetworks.undefined"
  end.

Definition address_of (alias : string) : answer string :=
  if String.eqb alias "bob" then Ok "tz1bob"
  else if String.eqb alias "alice" then Ok "tz1alice"
  else if String.eqb alias "nft" then Ok "KT1nft"
  else Err ("alias is not defined: " +:+ alias).

Definition externals (failing_headers : nat) (accept_origination : bool)
  : Externals :=
  {| activeNetworkKey := network_key;
     inspectorKey := fun config => network_key config +:+ ".inspector";
     suggestCommand := fun cmd => ["Try to run command 'tznft " +:+ cmd +:+ "' first"];
     loadFile := fun path => Ok ("code of " +:+ path);
     resolveAlias2Signer := fun alias _ =>
       match address_of alias with
       | Ok _ => Ok {| secret_key := "edsk-" +:+ alias |}
       | Err e => Err e
       end;
     resolveAlias2Address := fun alias _ => address_of alias;
     path_join_dirname := fun rel => "/tznft/" +:+ rel;
     kleur_text := fun v => match v with JString s => s | _ => "undefined" end;
     JSON_stringify := fun _ => "{}";
     JSON_stringify_indent := fun _ => "{}";
     child_exec := fun _ _ => {| exec_err := false; stdout := "started"; errout := "" |};
     publicKeyHash := fun signer => Ok ("tz1-of-" +:+ secret_key signer);
     rpc_getBlockHeader := fun h _ _ =>
       if (header_requests h <? failing_headers)%nat
       then Err "connection refused"
       else Ok tt;
     contract_originate := fun _ _ _ =>
       if accept_origination then Ok "op1" else Err "rejected";
     originationOp_contract := fun _ _ => Ok "KT1new";
     contract_at := fun _ _ _ => Ok tt;
     query_send := fun _ _ _ _ => Ok "op2";
     op_confirmation := fun _ _ => Ok tt;
     inspector_storage := fun _ _ => Ok (Some []) |}.

Definition sandbox_config : Configstore :=
  <["activeNetwork" := JString "sandbox"]>
    (<["availableNetworks.sandbox.providerUrl" := JString "http://localhost:20000"]> ∅).

Definition world (config : Configstore) : World :=
  {| store := config; console := []; trace := [] |}.

Definition bob_signer : InMemorySigner := {| secret_key := "edsk-bob" |}.

Definition toolkit : TezosToolkit :=
  {| tk_url := JString "http://localhost:20000";
     tk_signer := bob_signer;
     tk_rpc := JString "http://localhost:20000";
     confirmationPollingIntervalSecond := 5 |}.

Definition dest (to : string) (id : Z) : Fa2TransferDestination :=
  {| to_ := Some to; dest_token_id := Some id; amount := Some 1%Z |}.

Definition entry (from : string) (dests : list Fa2TransferDestination) : Fa2Transfer :=
  {| from_ := Some from; txs := dests |}.

Definition token (id : Z) (sym nm : string) : TokenMetadata :=
  {| token_id := Some id; symbol := Some sym; name := Some nm;
     decimals := Some 0%Z; extras := ∅ |}.

End Demo.

(** ** What the specification says, where it differs from the code *)

Section SpecDefinitions.

Context `{BN : BigNumberLib}.

(** The merge rule as the specification words it: the entry looked at
    is the one added last. *)
Definition spec_compileTransfer (description : string) (batch : list Fa2Transfer)
  : list Fa2Transfer :=
  let tx := parseTransfer_tx description in
  match last batch with
  | Some b =>
      if decide (from_ b = from_ tx)
      then removelast batch ++ [ {| from_ := from_ b; txs := txs b ++ txs tx |} ]
      else batch ++ [tx]
  | None => batch ++ [tx]
  end.

(** Tokens as the command line collects them, from [[]]. *)
Definition compile_tokens (descriptors : list string) : list TokenMetadata :=
  foldl (fun tokens d => parseTokens d tokens) [] descriptors.

End SpecDefinitions.

(** ** Outcomes, for the statements below *)

Section Outcomes.

Context `{BN : BigNumberLib} {EXT : Externals}.

(** The alias an operator descriptor names: the text before its first
    comma. *)
Definition operator_alias (o : string) : string :=
  default EmptyString (Js.split "," o !! 0%nat).

(** What one operator descriptor resolves to. *)
Definition operator_param (owner : string) (config : Configstore) (o : string)
  : answer OperatorParam :=
  match resolveAlias2Address (operator_alias o) config with
  | Ok operator =>
      Ok {| op_owner := owner;
            op_operator := operator;
            op_token_id := bn_of_string (Js.split "," o !! 1%nat) |}
  | Err e => Err e
  end.

(** The lines printed for a descriptor that does not resolve. *)
Definition operator_log (owner : string) (config : Configstore) (o : string)
  : list string :=
  match operator_param owner config o with
  | Ok _ => []
  | Err _ => ["cannot parse operator definition " +:+ o;
              "correct operator format is 'operator_alias_or_address, token_id'"]
  end.

(** All the values when there is no error, the first error otherwise. *)
Fixpoint all_or_nothing {A} (rs : list (answer A)) : result (list A) :=
  match rs with
  | [] => Ok []
  | r :: rs' =>
      match r, all_or_nothing rs' with
      | Ok a, Ok l => Ok (a :: l)
      | Err e, _ => Err (External e)
      | Ok _, Err e => Err e
      end
  end.

(** The world after [k] probes of the readiness loop. *)
Definition after_probes (k : nat) (w : World) : World :=
  {| store := store w;
     console := console w ++ replicate k "rpc...";
     trace := trace w ++ replicate k (EvGetBlockHeader "2") |}.

Definition start_sandbox_cmd : string :=
  "sh ../../nft-contracts/flextesa/start-sandbox.sh".

(** The handle built for a signer when a provider is configured. *)
Definition toolkit_of (signer : InMemorySigner) (config : Configstore)
  : TezosToolkit :=
  {| tk_url := config_get config (activeNetworkKey config +:+ ".providerUrl");
     tk_signer := signer;
     tk_rpc := config_get config (activeNetworkKey config +:+ ".providerUrl");
     confirmationPollingIntervalSecond := 5 |}.

(** The world in which the probe starts: the sandbox script has run and
    the handle of [bob] is built. *)
Definition sandbox_launched (w : World) : World :=
  {| store := store w;
     console := console w
                ++ [stdout (child_exec (trace w) start_sandbox_cmd);
                    "starting sandbox..."];
     trace := trace w ++ [EvExec start_sandbox_cmd; EvResolveSigner "bob"] |}.


End Outcomes.

(** ** The remaining commands

    [updateOperators] (contracts.ts 268-289) and [kill], [killSandbox]
    (bootstrap.ts 22-26, 60-78).  [fa2.updateOperators] belongs to
    [fa2-interface], which is not part of these files: it is a parameter,
    a computation of its own.  So is the error [child_process.exec] hands
    to its callback, which [killSandbox] rejects with. *)

Section MoreCommands.

Context `{BN : BigNumberLib} {EXT : Externals}.

Variable fa2_updateOperators :
  string -> TezosToolkit -> list OperatorParam -> list OperatorParam -> M unit.

Variable exec_error : ExecResult -> string.

#[local] Existing Instance M_ret.
#[local] Existing Instance M_bind.

(** [updateOperators], contracts.ts 268-289. *)
Definition updateOperators (owner nft : string)
    (addOperators removeOperators : list string) : M unit :=
  config ← loadUserConfig;
  tz ← createToolkit owner config;
  ownerAddress ← call (EvPublicKeyHash (tk_signer tz))
                    (fun _ => publicKeyHash (tk_signer tz));
  resolvedAdd ← resolveOperators ownerAddress addOperators config;
  resolvedRemove ← resolveOperators ownerAddress removeOperators config;
  nftAddress ← call (EvResolveAddress nft)
                  (fun _ => resolveAlias2Address nft config);
  fa2_updateOperators nftAddress tz resolvedAdd resolvedRemove.

Definition kill_sandbox_cmd : string :=
  "sh ../../nft-contracts/flextesa/kill-sandbox.sh".

(** [killSandbox], bootstrap.ts 60-78. *)
Definition killSandbox : M unit :=
  r ← call (EvExec kill_sandbox_cmd) (fun h => Ok (child_exec h kill_sandbox_cmd));
  (if exec_err r
   then log "failed to stop sandbox" ;;
        log (errout r) ;;
        fail (External (exec_error r))
   else log (stdout r)) ;;
  log "killed sandbox.".

(** [kill], bootstrap.ts 22-26. *)
Definition kill : M unit :=
  config ← loadUserConfig;
  let network := config_get config "activeNetwork" in
  match network with
  | JString "sandbox" => killSandbox
  | _ => ret tt
  end.

End MoreCommands.

(** ** Measures and frames, for the statements below *)

#[global] Instance jsval_eq_dec : EqDecision jsval.
Proof. solve_decision. Defined.

(** How often a character occurs in a string. *)
Fixpoint count_char (c : ascii) (s : string) : nat :=
  match s with
  | EmptyString => 0
  | String a s' => (if Ascii.eqb a c then 1 else 0) + count_char c s'
  end.

(** [pieces.join(sep)] for a one-character separator. *)
Fixpoint join_with (sep : ascii) (pieces : list string) : string :=
  match pieces with
  | [] => EmptyString
  | [piece] => piece
  | piece :: rest => piece +:+ String sep (join_with sep rest)
  end.

Section Frames.

Context `{BN : BigNumberLib} {EXT : Externals}.

(** A computation that never writes the configuration. *)
Definition keeps_store {A} (m : M A) : Prop :=
  ∀ w, store (snd (m w)) = store w.

Definition is_origination (ev : event) : bool :=
  match ev with
  | EvOriginate _ => true
  | _ => false
  end.

(** How many originations a history holds. *)
Definition originations (h : list event) : nat :=
  length (filter (fun ev => is_origination ev = true) h).

(** Requests that reach the node: everything but the look-up of an alias,
    of a key hash or of a file, and the shell. *)
Definition is_network_request (ev : event) : bool :=
  match ev with
  | EvGetBlockHeader _ | EvOriginate _ | EvOriginationContract _
  | EvContractAt _ | EvQuerySend _ _ _ | EvConfirmation _ | EvStorage _ => true
  | _ => false
  end.

(** All the destinations of a batch, in order. *)
Definition destinations (batch : list Fa2Transfer) : list Fa2TransferDestination :=
  concat (txs <$> batch).

(** Requests that [startSandbox] alone makes: the shell and the
    block-header probe. *)
Definition is_sandbox_event (ev : event) : bool :=
  match ev with
  | EvExec _ | EvGetBlockHeader _ => true
  | _ => false
  end.

(** How many requests to the node a history holds. *)
Definition network_requests (h : list event) : nat :=
  length (filter (fun ev => is_network_request ev = true) h).

(** The requests [showBalances] builds, contracts.ts 120-122. *)
Definition balance_requests (ownerAddress : string) (tokens : list string)
  : list BalanceOfRequest :=
  (fun t => {| req_token_id := bn_of_string (Some t); req_owner := ownerAddress |})
    <$> tokens.

(** The line [printBalances] prints for a balance. *)
Definition balance_line (b : BalanceOfResponse) : string :=
  "owner: " +:+ req_owner (request b)
  +:+ "	token: " +:+ bn_toString (req_token_id (request b))
  +:+ "	balance: " +:+ bn_toString (balance b).

End Frames.

(** The sandbox configuration of [Demo] after a bootstrap. *)
Definition bootstrapped_config : Configstore :=
  <["availableNetworks.sandbox.inspector" := JString "KT1inspector"]>
    Demo.sandbox_config.

(** * Properties *)

(** ** The JavaScript primitives *)

Lemma split_first_defined (sep : ascii) (s : string) :
  ∃ first, Js.split sep s !! 0%nat = Some first.
Proof.
  destruct s as [|c s]; simpl; [by eexists|].
  destruct (Ascii.eqb c sep); [by eexists|].
  destruct (Js.split sep s); by eexists.
Qed.

Lemma truthy_string_spec (v : option string) :
  Js.truthy_string v = true ↔ ∃ s, v = Some s ∧ s ≠ EmptyString.
Proof.
  split.
  - destruct v as [[|c s]|]; simpl; try discriminate.
    intros _. by exists (String c s).
  - intros (s & -> & Hs). by destruct s.
Qed.

(** ** The transfer-batch compiler *)

Section TransferBatch.

Context `{BN : BigNumberLib}.

(** What [parseTransfers] does: the entry it compares with, and merges
    into, is the first of the batch. *)
Lemma parseTransfers_first_entry (description : string) (b0 : Fa2Transfer)
    (rest : list Fa2Transfer) :
  let tx := parseTransfer_tx description in
  parseTransfers description (b0 :: rest) =
    if decide (from_ b0 = from_ tx)
    then {| from_ := from_ b0; txs := txs b0 ++ txs tx |} :: rest
    else (b0 :: rest) ++ [tx].
Proof. reflexivity. Qed.

Lemma parseTransfers_empty (description : string) :
  parseTransfers description [] = [parseTransfer_tx description].
Proof. reflexivity. Qed.

(** On a batch of at most one entry the first entry is the last one, and
    the code does what the specification says. *)
Lemma parseTransfers_short_batch (description : string) (batch : list Fa2Transfer) :
  (length batch ≤ 1)%nat →
  parseTransfers description batch = spec_compileTransfer description batch.
Proof.
  destruct batch as [|b0 [|b1 rest]]; simpl; [done| |lia].
  intros _. unfold parseTransfers, spec_compileTransfer. simpl.
  by destruct (decide _).
Qed.

End TransferBatch.

Section TransferBatchExamples.

Import Demo.

(** C1 (the code departs from it).  The claim: the entry a descriptor is
    merged into is the last-added one, and it is merged exactly when that
    entry's [from] equals the descriptor's.  On the batch [a; x] the
    descriptor ["a,c,2"] is merged, into the first entry, although the
    last-added entry is from [x]; the descriptor ["x,z,3"] is appended as
    a new entry although the last-added entry is from [x].  In both cases
    the result differs from what the merge rule of the specification
    gives. *)
Theorem parseTransfers_compares_first_not_last :
  let batch := [entry "a" [dest "b" 1]; entry "x" [dest "y" 9]] in
  parseTransfers "a,c,2" batch
    = [entry "a" [dest "b" 1; dest "c" 2]; entry "x" [dest "y" 9]]
  ∧ spec_compileTransfer "a,c,2" batch
    = [entry "a" [dest "b" 1]; entry "x" [dest "y" 9]; entry "a" [dest "c" 2]]
  ∧ parseTransfers "x,z,3" batch
    = [entry "a" [dest "b" 1]; entry "x" [dest "y" 9]; entry "x" [dest "z" 3]]
  ∧ spec_compileTransfer "x,z,3" batch
    = [entry "a" [dest "b" 1]; entry "x" [dest "y" 9; dest "z" 3]].
Proof. repeat split; vm_compute; reflexivity. Qed.

(** C2 (the code departs from it).  The claim: ["a,b,1"], ["x,y,9"],
    ["a,c,2"] compiled in order from the empty batch give three entries.
    The code gives two: the third descriptor is merged into the first
    entry, across the entry of [x]. *)
Theorem compile_transfers_merges_across_entries :
  compile_transfers ["a,b,1"; "x,y,9"; "a,c,2"]
    = [entry "a" [dest "b" 1; dest "c" 2]; entry "x" [dest "y" 9]]
  ∧ length (compile_transfers ["a,b,1"; "x,y,9"; "a,c,2"]) = 2%nat
  ∧ foldl (fun batch d => spec_compileTransfer d batch) [] ["a,b,1"; "x,y,9"; "a,c,2"]
    = [entry "a" [dest "b" 1]; entry "x" [dest "y" 9]; entry "a" [dest "c" 2]].
Proof. repeat split; vm_compute; reflexivity. Qed.

End TransferBatchExamples.

(** ** Token descriptors *)

Section Tokens.

Context `{BN : BigNumberLib}.

Lemma parseTokens_token_extras (descriptor : string) (cid : string) :
  extras (parseTokens_token descriptor) !! "ipfs_cid" = Some cid
  ↔ fields descriptor !! 3%nat = Some cid ∧ cid ≠ EmptyString.
Proof.
  unfold parseTokens_token. simpl.
  destruct (fields descriptor !! 3%nat) as [[|c s]|] eqn:E; simpl.
  - rewrite lookup_empty. split; [done|]. by intros [[= <-] ?].
  - rewrite lookup_insert_eq. split.
    + by intros [= <-].
    + by intros [[= <-] _].
  - rewrite lookup_empty. split; [done|]. by intros [? _].
Qed.

Lemma compile_tokens_snoc (descriptors : list string) (d : string) :
  compile_tokens (descriptors ++ [d])
  = parseTokens_token d :: compile_tokens descriptors.
Proof. unfold compile_tokens. by rewrite foldl_snoc. Qed.

(** [parseTokens] in terms of [fields]: it puts the token parsed from
    the descriptor in front of the tokens it is given; the new token has
    decimals 0; its extras hold ['ipfs_cid'] exactly when the fourth of
    the trimmed fields is there and not empty, with that field as value,
    and hold nothing else. *)
Theorem parseTokens_prepends (descriptor : string) (tokens : list TokenMetadata) :
  parseTokens descriptor tokens = parseTokens_token descriptor :: tokens
  ∧ decimals (parseTokens_token descriptor) = bn_of_number 0
  ∧ (∀ cid, extras (parseTokens_token descriptor) !! "ipfs_cid" = Some cid
            ↔ fields descriptor !! 3%nat = Some cid ∧ cid ≠ EmptyString)
  ∧ (∀ key, key ≠ "ipfs_cid" → extras (parseTokens_token descriptor) !! key = None)
  ∧ (∀ descriptors,
       compile_tokens descriptors = rev (parseTokens_token <$> descriptors)).
Proof.
  split; [reflexivity|]. split; [reflexivity|].
  split; [apply parseTokens_token_extras|]. split.
  - intros key Hkey. unfold parseTokens_token. simpl.
    destruct (fields descriptor !! 3%nat) as [[|c s]|]; simpl;
      rewrite ?lookup_insert_ne by done; apply lookup_empty.
  - induction descriptors as [|d ds IH] using rev_ind; [done|].
    rewrite compile_tokens_snoc, IH, fmap_app, rev_app_distr. done.
Qed.

End Tokens.

(** ** The storage encoder *)

Section Storage.

Context `{BN : BigNumberLib}.

Lemma createNftStorage_snoc (tokens : list TokenMetadata) (meta : TokenMetadata)
    (owner : string) :
  ledger (createNftStorage (tokens ++ [meta]) owner)
    = <[token_id meta := owner]> (ledger (createNftStorage tokens owner))
  ∧ token_metadata (createNftStorage (tokens ++ [meta]) owner)
    = <[token_id meta := meta]> (token_metadata (createNftStorage tokens owner)).
Proof. unfold createNftStorage. simpl. by rewrite foldl_snoc. Qed.

(** The ledger holds exactly the listed ids, all with the owner. *)
Lemma ledger_lookup (tokens : list TokenMetadata) (owner : string) (k : BigNumber) :
  ledger (createNftStorage tokens owner) !! k
  = if decide (k ∈ token_id <$> tokens) then Some owner else None.
Proof.
  induction tokens as [|meta tokens IH] using rev_ind.
  - cbn. rewrite lookup_empty. case_decide as Hin; [|done].
    by apply not_elem_of_nil in Hin.
  - destruct (createNftStorage_snoc tokens meta owner) as [-> _].
    rewrite fmap_app. change (token_id <$> [meta]) with [token_id meta].
    destruct (decide (token_id meta = k)) as [<-|Hne].
    + clear IH. rewrite lookup_insert_eq. case_decide as Hin; [done|].
      exfalso. apply Hin, elem_of_app. right. apply list_elem_of_here.
    + rewrite lookup_insert_ne by done. rewrite IH. clear IH.
      destruct (decide (k ∈ token_id <$> tokens)) as [Hin|Hnin];
        destruct (decide (k ∈ (token_id <$> tokens) ++ [token_id meta])) as [Hin'|Hnin'];
        try done.
      * exfalso. apply Hnin', elem_of_app. by left.
      * exfalso. apply elem_of_app in Hin' as [?|Hk]; [done|].
        apply list_elem_of_singleton in Hk. by subst.
Qed.

(** The metadata of an id is the entry that comes last among those with
    that id. *)
Lemma metadata_last_wins (pre post : list TokenMetadata) (meta : TokenMetadata)
    (owner : string) :
  token_id meta ∉ (token_id <$> post) →
  token_metadata (createNftStorage (pre ++ meta :: post) owner) !! token_id meta
  = Some meta.
Proof.
  induction post as [|m post IH] using rev_ind; intros Hnot.
  - destruct (createNftStorage_snoc pre meta owner) as [_ ->].
    apply lookup_insert_eq.
  - rewrite fmap_app, not_elem_of_app in Hnot. destruct Hnot as [Hpost Hm].
    replace (pre ++ meta :: post ++ [m]) with ((pre ++ meta :: post) ++ [m])
      by (by rewrite <- app_assoc).
    destruct (createNftStorage_snoc (pre ++ meta :: post) m owner) as [_ ->].
    rewrite lookup_insert_ne; [by apply IH|].
    intros Heq. apply Hm. rewrite <- Heq. apply list_elem_of_here.
Qed.

(** C3.  The storage [createNftStorage] returns has an empty operator
    mapping; when the token ids of the list are pairwise distinct, its
    ledger maps the id of every listed token to the owner and its
    metadata mapping maps it to that token's entry; when two entries
    share an id, the later one (the last with that id) is the one the
    metadata mapping holds, and the ledger still maps the id to the
    owner. *)
Theorem createNftStorage_maps (tokens : list TokenMetadata) (owner : string) :
  operators (createNftStorage tokens owner) = ∅
  ∧ (NoDup (token_id <$> tokens) →
     ∀ meta, meta ∈ tokens →
       ledger (createNftStorage tokens owner) !! token_id meta = Some owner
       ∧ token_metadata (createNftStorage tokens owner) !! token_id meta = Some meta)
  ∧ (∀ pre earlier mid later post,
       tokens = pre ++ earlier :: mid ++ later :: post →
       token_id earlier = token_id later →
       token_id later ∉ (token_id <$> post) →
       ledger (createNftStorage tokens owner) !! token_id later = Some owner
       ∧ token_metadata (createNftStorage tokens owner) !! token_id later = Some later).
Proof.
  split; [reflexivity|]. split.
  - intros Hnodup meta Hin. split.
    + rewrite ledger_lookup. case_decide as Hid; [done|].
      exfalso. apply Hid, list_elem_of_fmap. eauto.
    + apply list_elem_of_split in Hin as (pre & post & ->).
      apply metadata_last_wins.
      rewrite fmap_app, fmap_cons in Hnodup.
      apply NoDup_app in Hnodup as (_ & _ & Hnd).
      by apply NoDup_cons in Hnd as [? _].
  - intros pre earlier mid later post -> Hsame Hlast. split.
    + rewrite ledger_lookup. case_decide as Hid; [done|].
      exfalso. apply Hid, list_elem_of_fmap. exists later. split; [done|].
      apply elem_of_app. right. apply list_elem_of_further.
      apply elem_of_app. right. apply list_elem_of_here.
    + replace (pre ++ earlier :: mid ++ later :: post)
        with ((pre ++ earlier :: mid) ++ later :: post)
        by (by rewrite <- app_assoc).
      by apply metadata_last_wins.
Qed.

End Storage.

Section StorageExamples.

Import Demo.

Lemma createNftStorage_maps_witness :
  let t1 := token 1 "TK1" "first" in
  let t2 := token 2 "TK2" "second" in
  let t1' := token 1 "TK3" "third" in
  (ledger (createNftStorage [t1; t2] "tz1bob") !! token_id t2 = Some "tz1bob"
   ∧ token_metadata (createNftStorage [t1; t2] "tz1bob") !! token_id t2 = Some t2)
  ∧ (ledger (createNftStorage [t1; t2; t1'] "tz1bob") !! token_id t1' = Some "tz1bob"
     ∧ token_metadata (createNftStorage [t1; t2; t1'] "tz1bob") !! token_id t1' = Some t1').
Proof.
  intros t1 t2 t1'. split.
  - apply (createNftStorage_maps [t1; t2] "tz1bob").
    + apply (bool_decide_unpack (NoDup (token_id <$> [t1; t2]))).
      vm_compute. exact I.
    + apply list_elem_of_further, list_elem_of_here.
  - apply (proj2 (proj2 (createNftStorage_maps [t1; t2; t1'] "tz1bob"))
             [] t1 [t2] t1' []).
    + reflexivity.
    + reflexivity.
    + apply not_elem_of_nil.
Defined.

End StorageExamples.

(** ** The commands *)

(** Runs the monad's operations on a world. *)
Ltac run :=
  repeat (progress (unfold mbind, mret, M_bind, M_ret, bind, ret, fail,
                    try_catch, call, log, log_all, loadUserConfig; simpl)).

Section Toolkit.

Context `{BN : BigNumberLib} {EXT : Externals}.

Lemma config_get_unset (config : Configstore) (key : string) :
  config !! key = None → truthy (config_get config key) = false.
Proof. unfold config_get. by intros ->. Qed.

Lemma createToolkitFromSigner_configured (signer : InMemorySigner)
    (config : Configstore) (w : World) :
  truthy (config_get config (activeNetworkKey config +:+ ".providerUrl")) = true →
  createToolkitFromSigner signer config w
  = (Ok {| tk_url := config_get config (activeNetworkKey config +:+ ".providerUrl");
           tk_signer := signer;
           tk_rpc := config_get config (activeNetworkKey config +:+ ".providerUrl");
           confirmationPollingIntervalSecond := 5 |}, w).
Proof. unfold createToolkitFromSigner. intros ->. reflexivity. Qed.

Lemma createToolkitFromSigner_not_configured (signer : InMemorySigner)
    (config : Configstore) (w : World) :
  truthy (config_get config (activeNetworkKey config +:+ ".providerUrl")) = false →
  let msg := "network provider for "
             +:+ kleur_text (config_get config "activeNetwork")
             +:+ " URL is not configured" in
  createToolkitFromSigner signer config w
  = (Err (Throw_Error msg),
     {| store := store w; console := console w ++ [msg]; trace := trace w |}).
Proof. unfold createToolkitFromSigner. intros ->. reflexivity. Qed.

(** C7.  [createToolkitFromSigner] fails (it throws, after printing the
    message) when the key [<active network>.providerUrl] is not set in
    the configuration, or holds a falsy value; when the key holds a
    provider URL it returns a handle for that URL and the signer whose
    confirmation polling interval is 5 seconds, and leaves the world as
    it was. *)
Theorem createToolkitFromSigner_provider (signer : InMemorySigner)
    (config : Configstore) (w : World) :
  let pk := activeNetworkKey config +:+ ".providerUrl" in
  (config !! pk = None ∨ truthy (config_get config pk) = false →
   ∃ msg, fst (createToolkitFromSigner signer config w) = Err (Throw_Error msg))
  ∧ (∀ url, config !! pk = Some url → truthy url = true →
     ∃ tk, createToolkitFromSigner signer config w = (Ok tk, w)
           ∧ confirmationPollingIntervalSecond tk = 5%Z
           ∧ tk_rpc tk = url
           ∧ tk_signer tk = signer).
Proof.
  intros pk. split.
  - intros Hunset.
    assert (truthy (config_get config pk) = false) as Hfalsy.
    { destruct Hunset as [Hnone|?]; [by apply config_get_unset|done]. }
    eexists. by rewrite createToolkitFromSigner_not_configured.
  - intros url Hurl Htruthy.
    assert (config_get config pk = url) as Hget.
    { unfold config_get. by rewrite Hurl. }
    eexists. rewrite createToolkitFromSigner_configured.
    + fold pk. rewrite Hget. by repeat split.
    + fold pk. by rewrite Hget.
Qed.

(** C9.  [mintNfts] with no token rejects at once with ['there are no
    token definitions provided']: the world is left as it was, so no
    signer was resolved, no handle built and nothing originated. *)
Theorem mintNfts_no_tokens (owner : string) (w : World) :
  mintNfts owner [] w
  = (Err (Reject_string "there are no token definitions provided"), w).
Proof. reflexivity. Qed.

(** With a token to mint, the first thing [mintNfts] does is resolve the
    owner's signer. *)
Lemma mintNfts_resolves_signer (owner : string) (meta : TokenMetadata)
    (tokens : list TokenMetadata) (w : World) (e : string) :
  resolveAlias2Signer owner (store w) = Err e →
  mintNfts owner (meta :: tokens) w
  = (Err (External e),
     {| store := store w; console := console w;
        trace := trace w ++ [EvResolveSigner owner] |}).
Proof. intros H. unfold mintNfts, createToolkit. run. by rewrite H. Qed.

End Toolkit.

Section ToolkitExamples.

Import Demo.

Lemma createToolkitFromSigner_provider_witness :
  (∃ msg, fst (createToolkitFromSigner (EXT := externals 0 true) bob_signer ∅ (world ∅))
          = Err (Throw_Error msg))
  ∧ (∃ tk, createToolkitFromSigner (EXT := externals 0 true) bob_signer sandbox_config
             (world sandbox_config) = (Ok tk, world sandbox_config)
           ∧ confirmationPollingIntervalSecond tk = 5%Z
           ∧ tk_rpc tk = JString "http://localhost:20000"
           ∧ tk_signer tk = bob_signer).
Proof.
  split.
  - apply (createToolkitFromSigner_provider (EXT := externals 0 true)
             bob_signer ∅ (world ∅)).
    left. reflexivity.
  - apply (createToolkitFromSigner_provider (EXT := externals 0 true)
             bob_signer sandbox_config (world sandbox_config)).
    + vm_compute. reflexivity.
    + reflexivity.
Defined.

End ToolkitExamples.

(** ** Origination *)

Section Origination.

Context `{BN : BigNumberLib} {EXT : Externals}.

(** C6 (amended).  When the submission of an origination is rejected,
    [originateContract] is rejected with the error of the submission
    itself, unchanged: the label is in the line it prints, ['<label>
    origination error <json of the error>'], and not in the failure it
    returns.  The origination is submitted once: the only request made
    is that submission. *)
Theorem originateContract_rejected (tz : TezosToolkit) (code : string)
    (storage : storage_arg) (name : string) (w : World) (e : string) :
  contract_originate (trace w) tz (origParam_of code storage) = Err e →
  originateContract tz code storage name w
  = (Err (External e),
     {| store := store w;
        console := console w
                   ++ [name +:+ " origination error "
                       +:+ JSON_stringify_indent (External e)];
        trace := trace w ++ [EvOriginate (origParam_of code storage)] |}).
Proof. intros H. unfold originateContract. run. by rewrite H. Qed.

(** The same holds when the operation is accepted and its confirmation
    fails: one submission, the error handed on as it is. *)
Lemma originateContract_unconfirmed (tz : TezosToolkit) (code : string)
    (storage : storage_arg) (name : string) (w : World) (op e : string) :
  contract_originate (trace w) tz (origParam_of code storage) = Ok op →
  originationOp_contract (trace w ++ [EvOriginate (origParam_of code storage)]) op
    = Err e →
  originateContract tz code storage name w
  = (Err (External e),
     {| store := store w;
        console := console w
                   ++ [name +:+ " origination error "
                       +:+ JSON_stringify_indent (External e)];
        trace := trace w ++ [EvOriginate (origParam_of code storage);
                             EvOriginationContract op] |}).
Proof.
  intros H1 H2. unfold originateContract. run. rewrite H1. simpl.
  rewrite H2. simpl. by rewrite <- app_assoc.
Qed.

Lemma originateContract_confirmed (tz : TezosToolkit) (code : string)
    (storage : storage_arg) (name : string) (w : World) (op address : string) :
  contract_originate (trace w) tz (origParam_of code storage) = Ok op →
  originationOp_contract (trace w ++ [EvOriginate (origParam_of code storage)]) op
    = Ok address →
  originateContract tz code storage name w
  = (Ok address,
     {| store := store w;
        console := console w;
        trace := trace w ++ [EvOriginate (origParam_of code storage);
                             EvOriginationContract op] |}).
Proof.
  intros H1 H2. unfold originateContract. run. rewrite H1. simpl.
  rewrite H2. simpl. by rewrite <- app_assoc.
Qed.

End Origination.

Section OriginationExamples.

Import Demo.

(** C6, as the specification states it, fails: the failure of a rejected
    origination does not carry the label.  The same rejected submission,
    made under the labels ['inspector'] and ['nft'], returns one and the
    same failure, so nothing read off the failure gives the label
    back. *)
Lemma originateContract_failure_without_label :
  ¬ (∃ label_of : failure → string,
       ∀ name,
         ∃ f, fst (originateContract (EXT := externals 0 false) toolkit
                     "code" (StorageString "(Left Unit)") name (world sandbox_config))
              = Err f
              ∧ label_of f = name).
Proof.
  intros (label_of & H).
  destruct (H "inspector") as (f1 & E1 & L1).
  destruct (H "nft") as (f2 & E2 & L2).
  vm_compute in E1, E2.
  assert (f1 = f2) as Hsame by congruence.
  rewrite Hsame in L1. rewrite L1 in L2. discriminate L2.
Qed.

Lemma originateContract_rejected_witness :
  originateContract (EXT := externals 0 false) toolkit "code"
    (StorageString "(Left Unit)") "inspector" (world sandbox_config)
  = (Err (External "rejected"),
     {| store := sandbox_config;
        console := ["inspector origination error {}"];
        trace := [EvOriginate (CodeInit "code" "(Left Unit)")] |}).
Proof.
  apply (originateContract_rejected (EXT := externals 0 false) toolkit "code"
           (StorageString "(Left Unit)") "inspector" (world sandbox_config)
           "rejected").
  reflexivity.
Defined.

End OriginationExamples.

(** ** Balance queries *)

Section Balances.

Context `{BN : BigNumberLib} {EXT : Externals}.

(** C8 (amended).  When the signer and the two addresses resolve, a
    provider is configured and the inspector key is not set in the
    configuration, [showBalances] prints ['Cannot find deployed balance
    inspector contract.'] and the suggestion to run [bootstrap], sends
    nothing to the network and completes normally: its promise is
    fulfilled, not rejected. *)
Theorem showBalances_without_inspector (signer nft owner : string)
    (tokens : list string) (w : World) (s : InMemorySigner)
    (ownerAddress nftAddress : string) :
  resolveAlias2Signer signer (store w) = Ok s →
  truthy (config_get (store w) (activeNetworkKey (store w) +:+ ".providerUrl")) = true →
  resolveAlias2Address owner (store w) = Ok ownerAddress →
  resolveAlias2Address nft (store w) = Ok nftAddress →
  store w !! inspectorKey (store w) = None →
  showBalances signer nft owner tokens w
  = (Ok tt,
     {| store := store w;
        console := console w
                   ++ "Cannot find deployed balance inspector contract."
                      :: suggestCommand "bootstrap";
        trace := trace w ++ [EvResolveSigner signer;
                             EvResolveAddress owner;
                             EvResolveAddress nft] |}).
Proof.
  intros Hs Hurl Ho Hn Hins.
  unfold showBalances, createToolkit. run. rewrite Hs. simpl.
  rewrite createToolkitFromSigner_configured by done. simpl.
  rewrite Ho. simpl. rewrite Hn. simpl.
  unfold config_get at 1. rewrite Hins. simpl.
  by rewrite <- !app_assoc.
Qed.

(** It is the same when the key holds something that is not a non-empty
    string. *)
Lemma showBalances_unusable_inspector (signer nft owner : string)
    (tokens : list string) (w : World) (s : InMemorySigner)
    (ownerAddress nftAddress : string) :
  resolveAlias2Signer signer (store w) = Ok s →
  truthy (config_get (store w) (activeNetworkKey (store w) +:+ ".providerUrl")) = true →
  resolveAlias2Address owner (store w) = Ok ownerAddress →
  resolveAlias2Address nft (store w) = Ok nftAddress →
  (∀ address, config_get (store w) (inspectorKey (store w)) = JString address →
              address = EmptyString) →
  fst (showBalances signer nft owner tokens w) = Ok tt.
Proof.
  intros Hs Hurl Ho Hn Hins.
  unfold showBalances, createToolkit. run. rewrite Hs. simpl.
  rewrite createToolkitFromSigner_configured by done. simpl.
  rewrite Ho. simpl. rewrite Hn. simpl.
  destruct (config_get (store w) (inspectorKey (store w))) as [| | | |[|c a]|] eqn:E;
    try reflexivity.
  by specialize (Hins _ eq_refl).
Qed.

End Balances.

Section BalancesExamples.

Import Demo.

(** C8, as the specification states it, fails: with no inspector address
    in the configuration the balance query completes normally. *)
Lemma showBalances_completes_without_inspector :
  sandbox_config !! inspectorKey (Externals := externals 0 true) sandbox_config = None
  ∧ fst (showBalances (EXT := externals 0 true) "bob" "nft" "alice" ["1"]
           (world sandbox_config)) = Ok tt.
Proof. split; vm_compute; reflexivity. Qed.

Lemma showBalances_without_inspector_witness :
  showBalances (EXT := externals 0 true) "bob" "nft" "alice" ["1"] (world sandbox_config)
  = (Ok tt,
     {| store := sandbox_config;
        console := ["Cannot find deployed balance inspector contract.";
                    "Try to run command 'tznft bootstrap' first"];
        trace := [EvResolveSigner "bob"; EvResolveAddress "alice";
                  EvResolveAddress "nft"] |}).
Proof.
  apply (showBalances_without_inspector (EXT := externals 0 true)
           "bob" "nft" "alice" ["1"] (world sandbox_config)
           bob_signer "tz1alice" "KT1nft"); vm_compute; reflexivity.
Defined.

End BalancesExamples.

(** ** Operator lists *)

Section Operators.

Context `{BN : BigNumberLib} {EXT : Externals}.

Lemma all_or_nothing_ok {A} (rs : list (answer A)) (l : list A) :
  all_or_nothing rs = Ok l ↔ rs = Ok <$> l.
Proof.
  revert l. induction rs as [|r rs IH]; intros l; simpl.
  - split.
    + intros [= <-]. done.
    + destruct l; [done|discriminate].
  - destruct r as [a|e].
    + destruct (all_or_nothing rs) as [l'|e'] eqn:E.
      * split.
        -- intros [= <-]. simpl. f_equal. by apply IH.
        -- destruct l as [|a0 l0]; [discriminate|]. simpl.
           intros [= -> Hrs]. apply IH in Hrs. congruence.
      * split; [discriminate|].
        destruct l as [|a0 l0]; [discriminate|]. simpl.
        intros [= -> Hrs]. apply IH in Hrs. congruence.
    + split; [discriminate|]. destruct l; discriminate.
Qed.

Lemma all_or_nothing_err {A} (rs : list (answer A)) :
  (∃ r, r ∈ rs ∧ is_ok r = false) ↔ ∃ e, all_or_nothing rs = Err e.
Proof.
  induction rs as [|r rs IH]; simpl.
  - split.
    + intros (r & Hin & _). by apply not_elem_of_nil in Hin.
    + intros [e He]. discriminate.
  - destruct r as [a|e].
    + destruct (all_or_nothing rs) as [l'|e'] eqn:E.
      * split.
        -- intros (r & Hin & Hr). exfalso.
           apply elem_of_cons in Hin as [->|Hin]; [discriminate|].
           destruct (proj1 IH) as [? ?]; [eauto|discriminate].
        -- intros [? ?]. discriminate.
      * split; [eauto|]. intros _.
        destruct (proj2 IH) as (r & Hin & Hr); [eauto|].
        exists r. split; [by apply list_elem_of_further|done].
    + split; [eauto|]. intros _. exists (Err e). split; [apply list_elem_of_here|done].
Qed.

(** One callback: the alias is looked up, and a failure is printed and
    handed on. *)
Lemma resolveOperator_run (owner : string) (config : Configstore) (o : string)
    (w : World) :
  resolveOperator owner config o w
  = (match operator_param owner config o with
     | Ok p => Ok p
     | Err e => Err (External e)
     end,
     {| store := store w;
        console := console w ++ operator_log owner config o;
        trace := trace w ++ [EvResolveAddress (operator_alias o)] |}).
Proof.
  unfold resolveOperator, operator_log, operator_param, operator_alias. run.
  destruct (resolveAlias2Address _ config) as [a|e]; simpl.
  - by rewrite app_nil_r.
  - by rewrite <- app_assoc.
Qed.

(** The whole list: every descriptor is looked up and every failure
    printed; the results are joined all or nothing. *)
Lemma resolveOperators_run (owner : string) (operators : list string)
    (config : Configstore) (w : World) :
  resolveOperators owner operators config w
  = (all_or_nothing (operator_param owner config <$> operators),
     {| store := store w;
        console := console w ++ concat (operator_log owner config <$> operators);
        trace := trace w
                 ++ ((fun o => EvResolveAddress (operator_alias o)) <$> operators) |}).
Proof.
  unfold resolveOperators. revert w.
  induction operators as [|o os IH]; intros w.
  - simpl. rewrite !app_nil_r. by destruct w.
  - rewrite !fmap_cons.
    change (Promise_all (resolveOperator owner config o
                         :: (resolveOperator owner config <$> os)) w)
      with (let (r, w1) := resolveOperator owner config o w in
            let (rs, w2) := Promise_all (resolveOperator owner config <$> os) w1 in
            (match r, rs with
             | Ok a, Ok l => Ok (a :: l)
             | Err e, _ => Err e
             | Ok _, Err e => Err e
             end, w2)).
    rewrite resolveOperator_run, IH. simpl.
    rewrite <- !app_assoc. simpl.
    by destruct (operator_param owner config o).
Qed.

(** The join of [resolveOperators].  It looks every descriptor of the
    list up, whatever becomes of the others (the callbacks all run; their
    interleaving is not modelled); the call fails exactly when the alias
    of some descriptor fails to resolve; a list that is returned has the
    parameter of every descriptor, in order, so it is never a partial
    list; and on [["bob,1"; "!!!bad!!!"]], where ["!!!bad!!!"] is no alias
    and no address, the call fails. *)
Theorem resolveOperators_all_or_nothing (owner : string) (operators : list string)
    (config : Configstore) (w : World) :
  trace (snd (resolveOperators owner operators config w))
    = trace w ++ ((fun o => EvResolveAddress (operator_alias o)) <$> operators)
  ∧ ((∃ o, o ∈ operators ∧ is_ok (operator_param owner config o) = false)
     ↔ ∃ e, fst (resolveOperators owner operators config w) = Err e)
  ∧ (∀ params, fst (resolveOperators owner operators config w) = Ok params →
               Forall2 (fun o p => operator_param owner config o = Ok p)
                 operators params)
  ∧ (∀ e, resolveAlias2Address "!!!bad!!!" config = Err e →
          ∃ e', fst (resolveOperators owner ["bob,1"; "!!!bad!!!"] config w) = Err e').
Proof.
  rewrite !resolveOperators_run. simpl. split; [done|]. split; [|split].
  - rewrite <- all_or_nothing_err. split.
    + intros (o & Hin & Ho). exists (operator_param owner config o).
      split; [|done]. apply list_elem_of_fmap. eauto.
    + intros (r & Hin & Hr). apply list_elem_of_fmap in Hin as (o & -> & Hin). eauto.
  - intros params Hok. apply all_or_nothing_ok in Hok.
    clear w. revert params Hok. induction operators as [|o os IH]; intros params Hok.
    + destruct params; [constructor|discriminate].
    + destruct params as [|p ps]; [discriminate|].
      simpl in Hok. injection Hok as Ho Hos. constructor; [done|by apply IH].
  - intros e He. unfold operator_param at 2, operator_alias. simpl. rewrite He.
    destruct (operator_param owner config "bob,1"); eauto.
Qed.

End Operators.

Section OperatorsExamples.

Import Demo.

Lemma resolveOperators_all_or_nothing_witness :
  ∃ e', fst (resolveOperators (EXT := externals 0 true) "tz1bob"
               ["bob,1"; "!!!bad!!!"] sandbox_config (world sandbox_config))
        = Err e'.
Proof.
  apply (proj2 (proj2 (proj2
           (resolveOperators_all_or_nothing (EXT := externals 0 true)
              "tz1bob" [] sandbox_config (world sandbox_config))))
           "alias is not defined: !!!bad!!!").
  reflexivity.
Defined.

End OperatorsExamples.

(** ** The readiness probe of bootstrap *)

Section Readiness.

Context `{BN : BigNumberLib} {EXT : Externals}.

Lemma header_requests_app (h1 h2 : list event) :
  header_requests (h1 ++ h2) = (header_requests h1 + header_requests h2)%nat.
Proof. unfold header_requests. by rewrite filter_app, length_app. Qed.

Lemma header_requests_replicate (k : nat) :
  header_requests (replicate k (EvGetBlockHeader "2")) = k.
Proof.
  unfold header_requests. induction k as [|k IH]; [done|].
  change (replicate (S k) (EvGetBlockHeader "2"))
    with (EvGetBlockHeader "2" :: replicate k (EvGetBlockHeader "2")).
  rewrite filter_cons_True by done. simpl. by rewrite IH.
Qed.

Lemma after_probes_0 (w : World) : after_probes 0 w = w.
Proof. unfold after_probes. simpl. rewrite !app_nil_r. by destruct w. Qed.

Lemma after_probes_add (a b : nat) (w : World) :
  after_probes a (after_probes b w) = after_probes (b + a) w.
Proof. unfold after_probes. simpl. by rewrite !replicate_add, !app_assoc. Qed.

Lemma after_probes_S (k : nat) (w : World) :
  after_probes k (after_probes 1 w) = after_probes (S k) w.
Proof. apply after_probes_add. Qed.

Lemma after_probes_succ (k : nat) (w : World) :
  after_probes 1 (after_probes k w) = after_probes (S k) w.
Proof. rewrite after_probes_add. by rewrite Nat.add_1_r. Qed.

Lemma startSandbox_probe_run (tk : TezosToolkit) (w : World) :
  startSandbox_probe tk w
  = (match rpc_getBlockHeader (trace w) tk "2" with
     | Ok _ => Ok tt
     | Err e => Err (External e)
     end, after_probes 1 w).
Proof.
  unfold startSandbox_probe, after_probes. run.
  by destruct (rpc_getBlockHeader (trace w) tk "2") as [[]|e].
Qed.

Lemma retry_attempt_unfold {A} (fn : M A) (timeouts : nat) (errors : list failure)
    (w : World) :
  retry_attempt fn timeouts errors w
  = match fn w with
    | (Ok a, w') => (Ok a, w')
    | (Err e, w') =>
        match timeouts with
        | O => (Err (RetryExhausted (errors ++ [e])), w')
        | S n => retry_attempt fn n (errors ++ [e]) w'
        end
    end.
Proof. by destruct timeouts. Qed.

(** [k] failed probes use up [k] retries and leave [k] errors. *)
Lemma retry_failures (tk : TezosToolkit) (k : nat) :
  ∀ (n : nat) (errors : list failure) (w : World),
    (∀ j, (j < k)%nat →
          is_ok (rpc_getBlockHeader
                   (trace w ++ replicate j (EvGetBlockHeader "2")) tk "2") = false) →
    ∃ es, length es = k
          ∧ retry_attempt (startSandbox_probe tk) (k + n) errors w
            = retry_attempt (startSandbox_probe tk) n (errors ++ es) (after_probes k w).
Proof.
  induction k as [|k IH]; intros n errors w Hfail.
  - exists []. split; [done|]. by rewrite app_nil_r, after_probes_0.
  - pose proof (Hfail 0%nat ltac:(lia)) as H0. simpl in H0. rewrite app_nil_r in H0.
    destruct (rpc_getBlockHeader (trace w) tk "2") as [u|e] eqn:E; [discriminate|].
    destruct (IH n (errors ++ [External e]) (after_probes 1 w)) as (es & Hlen & Hes).
    { intros j Hj. simpl. rewrite <- app_assoc. simpl.
      apply (Hfail (S j)). lia. }
    exists (External e :: es). split; [simpl; by rewrite Hlen|].
    rewrite retry_attempt_unfold, startSandbox_probe_run, E. simpl.
    rewrite Hes, after_probes_S, <- app_assoc. done.
Qed.

(** A probe that succeeds ends the loop. *)
Lemma retry_success (tk : TezosToolkit) (n : nat) (errors : list failure) (w : World) :
  rpc_getBlockHeader (trace w) tk "2" = Ok tt →
  retry_attempt (startSandbox_probe tk) n errors w = (Ok tt, after_probes 1 w).
Proof.
  intros H. by rewrite retry_attempt_unfold, startSandbox_probe_run, H.
Qed.

(** [retry] with [retries] retries makes at most [retries + 1] attempts:
    it passes when attempt [k + 1] succeeds, for [k] up to [retries]... *)
Lemma retry_passes (tk : TezosToolkit) (retries k : nat) (w : World) :
  (k ≤ retries)%nat →
  (∀ j, (j < k)%nat →
        is_ok (rpc_getBlockHeader
                 (trace w ++ replicate j (EvGetBlockHeader "2")) tk "2") = false) →
  rpc_getBlockHeader (trace w ++ replicate k (EvGetBlockHeader "2")) tk "2" = Ok tt →
  retry (startSandbox_probe tk) retries w = (Ok tt, after_probes (S k) w).
Proof.
  intros Hk Hfail Hok. unfold retry.
  replace retries with (k + (retries - k))%nat by lia.
  destruct (retry_failures tk k (retries - k) [] w Hfail) as (es & _ & ->).
  rewrite retry_success by done. by rewrite after_probes_succ.
Qed.






(** Up to the probe, [startSandbox] runs the script and builds the
    handle. *)
Lemma startSandbox_run (w : World) (s : InMemorySigner) :
  exec_err (child_exec (trace w) start_sandbox_cmd) = false →
  resolveAlias2Signer "bob" (store w) = Ok s →
  truthy (config_get (store w) (activeNetworkKey (store w) +:+ ".providerUrl")) = true →
  startSandbox w
  = bind (retry (startSandbox_probe (toolkit_of s (store w))) 8)
      (fun _ => log "sandbox started")
      (sandbox_launched w).
Proof.
  intros Hexec Hs Hurl. unfold startSandbox, createToolkit. run.
  fold start_sandbox_cmd. rewrite Hexec. simpl. rewrite Hs. simpl.
  rewrite createToolkitFromSigner_configured by done.
  unfold sandbox_launched, toolkit_of. by rewrite <- !app_assoc.
Qed.

Lemma header_requests_launched (w : World) (j : nat) :
  header_requests (trace (sandbox_launched w) ++ replicate j (EvGetBlockHeader "2"))
  = (header_requests (trace w) + j)%nat.
Proof.
  simpl. rewrite !header_requests_app, header_requests_replicate.
  unfold header_requests at 2. simpl. lia.
Qed.

(** [startSandbox] passes when probe [k + 1] is answered, for [k] up to
    8: the loop makes up to nine requests. *)
Lemma startSandbox_passes (w : World) (s : InMemorySigner) (k : nat) :
  exec_err (child_exec (trace w) start_sandbox_cmd) = false →
  resolveAlias2Signer "bob" (store w) = Ok s →
  truthy (config_get (store w) (activeNetworkKey (store w) +:+ ".providerUrl")) = true →
  header_requests (trace w) = 0%nat →
  (k ≤ 8)%nat →
  (∀ h tk, (header_requests h < k)%nat → is_ok (rpc_getBlockHeader h tk "2") = false) →
  (∀ h tk, header_requests h = k → rpc_getBlockHeader h tk "2" = Ok tt) →
  startSandbox w
  = (Ok tt,
     {| store := store w;
        console := console (after_probes (S k) (sandbox_launched w)) ++ ["sandbox started"];
        trace := trace (after_probes (S k) (sandbox_launched w)) |}).
Proof.
  intros Hexec Hs Hurl H0 Hk Hfail Hok.
  rewrite (startSandbox_run w s) by done. unfold bind.
  rewrite (retry_passes _ 8 k); [reflexivity|done| |].
  - intros j Hj. apply Hfail. rewrite header_requests_launched. lia.
  - apply Hok. rewrite header_requests_launched. lia.
Qed.




End Readiness.

Section ReadinessExamples.

Import Demo.


(** With nine attempts in all, eight failures and an answer to the ninth
    request still pass. *)
Example bootstrap_passes_on_ninth_request :
  fst (bootstrap (EXT := externals 8 true) (world sandbox_config)) = Ok tt.
Proof. vm_compute. reflexivity. Qed.

End ReadinessExamples.

(** * Further properties *)

(** ** Descriptors and their fields *)

Lemma split_cons_form (sep : ascii) (s : string) :
  ∃ first rest, Js.split sep s = first :: rest.
Proof.
  destruct s as [|c s]; simpl; [by eauto|].
  destruct (Ascii.eqb c sep); [by eauto|].
  destruct (Js.split sep s); by eauto.
Qed.

Lemma split_length (sep : ascii) (s : string) :
  length (Js.split sep s) = S (count_char sep s).
Proof.
  induction s as [|c s IH]; [done|]. simpl.
  destruct (Ascii.eqb c sep); simpl; [by rewrite IH|].
  destruct (split_cons_form sep s) as (first & rest & E).
  rewrite E in *. simpl in *. done.
Qed.

Lemma split_without_separator (sep : ascii) (s : string) :
  count_char sep s = 0%nat → Js.split sep s = [s].
Proof.
  induction s as [|c s IH]; [done|]. simpl.
  destruct (Ascii.eqb c sep); [discriminate|]. simpl.
  intros H. by rewrite IH.
Qed.

Lemma trimStart_form (s : string) :
  Js.trimStart s = EmptyString
  ∨ ∃ c t, Js.trimStart s = String c t ∧ Js.is_white_space c = false.
Proof.
  induction s as [|c s IH]; simpl; [by left|].
  destruct (Js.is_white_space c) eqn:E; [done|]. right. eauto.
Qed.

Lemma trimEnd_idempotent (s : string) : Js.trimEnd (Js.trimEnd s) = Js.trimEnd s.
Proof.
  induction s as [|c s IH]; [done|]. simpl.
  destruct (Js.trimEnd s) as [|d t] eqn:E.
  - destruct (Js.is_white_space c) eqn:Ec; [done|]. simpl. by rewrite Ec.
  - change (Js.trimEnd (String c (String d t)))
      with (match Js.trimEnd (String d t) with
            | EmptyString =>
                if Js.is_white_space c then EmptyString else String c EmptyString
            | u => String c u
            end).
    by rewrite IH.
Qed.

Lemma trimEnd_keeps_first (c : ascii) (s : string) :
  Js.is_white_space c = false → ∃ t, Js.trimEnd (String c s) = String c t.
Proof.
  intros Hc. simpl. destruct (Js.trimEnd s); [rewrite Hc|]; eauto.
Qed.

Lemma trim_idempotent (s : string) : Js.trim (Js.trim s) = Js.trim s.
Proof.
  unfold Js.trim.
  destruct (trimStart_form s) as [->|(c & t & -> & Hc)]; [done|].
  destruct (trimEnd_keeps_first c t Hc) as (u & Hu).
  rewrite Hu. simpl Js.trimStart. rewrite Hc. rewrite <- Hu.
  apply trimEnd_idempotent.
Qed.

Section Descriptors.

Context `{BN : BigNumberLib}.

(** [fields]: a descriptor has one field more than it has commas, and no
    field is left with white space around it. *)
Theorem fields_count_and_trimmed (descriptor : string) :
  length (fields descriptor) = S (count_char "," descriptor)
  ∧ ∀ f, f ∈ fields descriptor → Js.trim f = f.
Proof.
  unfold fields. split.
  - by rewrite length_fmap, split_length.
  - intros f Hf. apply list_elem_of_fmap in Hf as (piece & -> & _).
    apply trim_idempotent.
Qed.

(** [split] loses nothing: the pieces joined with the separator are the
    string again, and no piece holds the separator. *)
Theorem split_join (sep : ascii) (s : string) :
  join_with sep (Js.split sep s) = s
  ∧ ∀ piece, piece ∈ Js.split sep s → count_char sep piece = 0%nat.
Proof.
  induction s as [|c s [IHjoin IHcount]].
  - split; [done|]. intros piece Hin. apply list_elem_of_singleton in Hin. by subst.
  - simpl. destruct (Ascii.eqb c sep) eqn:Ec.
    + apply Ascii.eqb_eq in Ec as ->. split.
      * destruct (split_cons_form sep s) as (first & rest & E).
        rewrite E in *.
        change (join_with sep (EmptyString :: first :: rest))
          with (String sep (join_with sep (first :: rest))).
        by rewrite IHjoin.
      * intros piece Hin. apply elem_of_cons in Hin as [->|Hin]; [done|by apply IHcount].
    + destruct (split_cons_form sep s) as (first & rest & E).
      rewrite E in *. split.
      * destruct rest as [|second rest].
        -- simpl in *. by rewrite IHjoin.
        -- change (join_with sep (String c first :: second :: rest))
             with (String c (first +:+ String sep (join_with sep (second :: rest)))).
           change (join_with sep (first :: second :: rest))
             with (first +:+ String sep (join_with sep (second :: rest))) in IHjoin.
           by rewrite IHjoin.
      * intros piece Hin. apply elem_of_cons in Hin as [->|Hin].
        -- simpl. rewrite Ec. simpl. apply IHcount. apply list_elem_of_here.
        -- apply IHcount. by apply list_elem_of_further.
Qed.

(** A descriptor without a comma is one field: [parseTokens] makes a
    token of it whose symbol and name are [undefined] and whose extras
    are empty, and [parseTransfers] a transfer whose destination is
    [undefined] and whose token id is the [BigNumber] of [undefined]. *)
Theorem descriptor_without_comma (descriptor : string) :
  count_char "," descriptor = 0%nat →
  parseTokens_token descriptor
  = {| token_id := bn_of_string (Some (Js.trim descriptor));
       symbol := None;
       name := None;
       decimals := bn_of_number 0;
       extras := ∅ |}
  ∧ parseTransfer_tx descriptor
    = {| from_ := Some (Js.trim descriptor);
         txs := [ {| to_ := None;
                     dest_token_id := bn_of_string None;
                     amount := bn_of_number 1 |} ] |}.
Proof.
  intros H. unfold parseTokens_token, parseTransfer_tx, fields.
  by rewrite (split_without_separator _ _ H).
Qed.

End Descriptors.

Section DescriptorsExamples.

Import Demo.

Lemma descriptor_without_comma_witness :
  parseTokens_token " 7 "
  = {| token_id := bn_of_string (Some (Js.trim " 7 "));
       symbol := None;
       name := None;
       decimals := bn_of_number 0;
       extras := ∅ |}
  ∧ parseTransfer_tx " 7 "
    = {| from_ := Some (Js.trim " 7 ");
         txs := [ {| to_ := None;
                     dest_token_id := bn_of_string None;
                     amount := bn_of_number 1 |} ] |}.
Proof.
  apply (descriptor_without_comma " 7 "). reflexivity.
Defined.

End DescriptorsExamples.

(** ** Compiled transfer batches *)

Section CompiledBatches.

Context `{BN : BigNumberLib}.

Lemma compile_transfers_snoc (descriptions : list string) (d : string) :
  compile_transfers (descriptions ++ [d])
  = parseTransfers d (compile_transfers descriptions).
Proof. unfold compile_transfers. by rewrite foldl_snoc. Qed.

Lemma destinations_parseTransfers (d : string) (batch : list Fa2Transfer) :
  destinations (parseTransfers d batch)
  ≡ₚ destinations batch ++ txs (parseTransfer_tx d).
Proof.
  unfold destinations, parseTransfers.
  destruct batch as [|b0 rest]; [done|].
  destruct (decide (from_ b0 = from_ (parseTransfer_tx d))).
  - simpl. rewrite <- !app_assoc. apply Permutation_app_head, Permutation_app_comm.
  - rewrite fmap_app, concat_app.
    change (concat (txs <$> [parseTransfer_tx d]))
      with (txs (parseTransfer_tx d) ++ []).
    by rewrite app_nil_r.
Qed.

(** Compiling loses and invents no transfer: the destinations of the
    compiled batch are those of the descriptors, one for each, up to
    their order. *)
Theorem compile_transfers_conserves (descriptions : list string) :
  destinations (compile_transfers descriptions)
  ≡ₚ concat ((fun d => txs (parseTransfer_tx d)) <$> descriptions)
  ∧ length (destinations (compile_transfers descriptions)) = length descriptions.
Proof.
  assert (destinations (compile_transfers descriptions)
          ≡ₚ concat ((fun d => txs (parseTransfer_tx d)) <$> descriptions)) as Hperm.
  { induction descriptions as [|d ds IH] using rev_ind; [done|].
    rewrite compile_transfers_snoc, destinations_parseTransfers, IH.
    rewrite fmap_app, concat_app.
    change (concat ((fun d => txs (parseTransfer_tx d)) <$> [d]))
      with (txs (parseTransfer_tx d) ++ []).
    by rewrite app_nil_r. }
  split; [done|]. rewrite Hperm.
  clear Hperm. induction descriptions as [|d ds IH]; [done|].
  simpl. f_equal. exact IH.
Qed.

Lemma first_sender_step (d : string) (b0 : Fa2Transfer) (rest : list Fa2Transfer) :
  Forall (fun b => from_ b ≠ from_ b0) rest →
  ∃ b0' rest', parseTransfers d (b0 :: rest) = b0' :: rest'
               ∧ from_ b0' = from_ b0
               ∧ Forall (fun b => from_ b ≠ from_ b0) rest'.
Proof.
  intros Hrest. rewrite parseTransfers_first_entry. cbv zeta.
  destruct (decide (from_ b0 = from_ (parseTransfer_tx d))) as [Heq|Hne].
  - by eexists _, _.
  - exists b0, (rest ++ [parseTransfer_tx d]). split; [done|]. split; [done|].
    apply Forall_app. split; [done|]. apply Forall_singleton. congruence.
Qed.

(** The sender of the first descriptor has one entry, the first: no
    later entry of a compiled batch is from that sender. *)
Theorem first_sender_has_one_entry (descriptions : list string)
    (b0 : Fa2Transfer) (rest : list Fa2Transfer) :
  compile_transfers descriptions = b0 :: rest →
  Forall (fun b => from_ b ≠ from_ b0) rest.
Proof.
  revert b0 rest.
  induction descriptions as [|d ds IH] using rev_ind; [done|].
  intros b0 rest. rewrite compile_transfers_snoc.
  destruct (compile_transfers ds) as [|c0 crest] eqn:E.
  - rewrite parseTransfers_empty. intros [= <- <-]. constructor.
  - destruct (first_sender_step d c0 crest (IH _ _ eq_refl))
      as (b0' & rest' & -> & Hfrom & Hrest).
    intros [= <- <-]. by rewrite Hfrom.
Qed.

(** Descriptors that all name one sender compile to a single entry,
    with their destinations in the order of the descriptors. *)
Theorem single_sender_single_entry (descriptions : list string) (a : option string) :
  descriptions ≠ [] →
  Forall (fun d => from_ (parseTransfer_tx d) = a) descriptions →
  compile_transfers descriptions
  = [ {| from_ := a;
         txs := concat ((fun d => txs (parseTransfer_tx d)) <$> descriptions) |} ].
Proof.
  induction descriptions as [|d ds IH] using rev_ind; [done|].
  intros _ Hall. apply Forall_app in Hall as [Hds Hd].
  rewrite Forall_singleton in Hd.
  rewrite compile_transfers_snoc, fmap_app, concat_app.
  destruct ds as [|d0 ds0].
  - change (compile_transfers []) with (@nil Fa2Transfer).
    rewrite parseTransfers_empty. unfold parseTransfer_tx in *. simpl in *. by subst.
  - rewrite IH by done.
    rewrite parseTransfers_first_entry. cbv zeta.
    rewrite decide_True by (by rewrite Hd).
    change (concat ((fun d => txs (parseTransfer_tx d)) <$> [d]))
      with (txs (parseTransfer_tx d) ++ []).
    by rewrite !app_nil_r.
Qed.

(** Every entry of a compiled batch has a destination, and every
    destination has amount 1. *)
Theorem compiled_entries_well_formed (descriptions : list string) :
  Forall (fun b => txs b ≠ []
                   ∧ Forall (fun t => amount t = bn_of_number 1) (txs b))
    (compile_transfers descriptions).
Proof.
  induction descriptions as [|d ds IH] using rev_ind; [constructor|].
  rewrite compile_transfers_snoc. unfold parseTransfers.
  assert (Forall (fun t => amount t = bn_of_number 1) (txs (parseTransfer_tx d)))
    as Htx by (by apply Forall_singleton).
  destruct (compile_transfers ds) as [|b0 rest].
  - apply Forall_singleton. by split.
  - apply Forall_cons in IH as [[Hne Hb0] Hrest].
    destruct (decide (from_ b0 = from_ (parseTransfer_tx d))).
    + constructor; [|done]. simpl. split.
      * by destruct (txs b0).
      * apply Forall_app. by split.
    + apply Forall_app. split; [by constructor|].
      apply Forall_singleton. by split.
Qed.

End CompiledBatches.

Section CompiledBatchesExamples.

Import Demo.

Lemma first_sender_has_one_entry_witness :
  Forall (fun b => from_ b ≠ Some "a")
    [entry "x" [dest "y" 9]; entry "z" [dest "w" 4]].
Proof.
  apply (first_sender_has_one_entry ["a,b,1"; "x,y,9"; "a,c,2"; "z,w,4"; "a,d,5"]
           (entry "a" [dest "b" 1; dest "c" 2; dest "d" 5])).
  vm_compute. reflexivity.
Defined.

Lemma single_sender_single_entry_witness :
  compile_transfers ["a,c,2"; "a , b , 1"]
  = [ {| from_ := Some "a";
         txs := concat ((fun d => txs (parseTransfer_tx d)) <$> ["a,c,2"; "a , b , 1"]) |} ].
Proof.
  apply (single_sender_single_entry ["a,c,2"; "a , b , 1"] (Some "a")).
  - discriminate.
  - repeat constructor.
Defined.

End CompiledBatchesExamples.

(** ** More on the storage encoder *)

Section StorageMore.

Context `{BN : BigNumberLib}.

Lemma metadata_lookup_absent (tokens : list TokenMetadata) (owner : string)
    (k : BigNumber) :
  k ∉ (token_id <$> tokens) →
  token_metadata (createNftStorage tokens owner) !! k = None.
Proof.
  induction tokens as [|meta tokens IH] using rev_ind; intros Hk.
  - apply lookup_empty.
  - rewrite fmap_app, not_elem_of_app in Hk. destruct Hk as [Hk Hmeta].
    destruct (createNftStorage_snoc tokens meta owner) as [_ ->].
    rewrite lookup_insert_ne; [by apply IH|].
    intros <-. apply Hmeta. apply list_elem_of_here.
Qed.

Lemma metadata_lookup_listed (tokens : list TokenMetadata) (owner : string)
    (meta : TokenMetadata) :
  NoDup (token_id <$> tokens) → meta ∈ tokens →
  token_metadata (createNftStorage tokens owner) !! token_id meta = Some meta.
Proof.
  intros Hnodup Hin.
  apply list_elem_of_split in Hin as (pre & post & ->).
  apply metadata_last_wins.
  rewrite fmap_app, fmap_cons in Hnodup.
  apply NoDup_app in Hnodup as (_ & _ & Hnd).
  by apply NoDup_cons in Hnd as [? _].
Qed.

(** The two mappings of the storage have the same keys, the ids of the
    listed tokens, and an entry of the metadata mapping is a listed token
    filed under its own id. *)
Theorem storage_keys (tokens : list TokenMetadata) (owner : string) :
  dom (ledger (createNftStorage tokens owner))
    =@{gset BigNumber} list_to_set (token_id <$> tokens)
  ∧ dom (token_metadata (createNftStorage tokens owner))
    =@{gset BigNumber} list_to_set (token_id <$> tokens)
  ∧ ∀ k meta, token_metadata (createNftStorage tokens owner) !! k = Some meta →
              token_id meta = k ∧ meta ∈ tokens.
Proof.
  induction tokens as [|m tokens (IHl & IHm & IH)] using rev_ind.
  - split; [|split].
    + simpl. apply dom_empty_L.
    + simpl. apply dom_empty_L.
    + intros k meta. simpl. by rewrite lookup_empty.
  - destruct (createNftStorage_snoc tokens m owner) as [-> ->].
    rewrite !dom_insert_L, IHl, IHm, fmap_app, list_to_set_app_L.
    change (list_to_set (token_id <$> [m]))
      with ({[token_id m]} ∪ (∅ : gset BigNumber)).
    rewrite union_empty_r_L, (comm_L (∪) {[token_id m]}).
    split; [done|]. split; [done|].
    intros k meta. destruct (decide (token_id m = k)) as [<-|Hne].
    + rewrite lookup_insert_eq. intros [= <-]. split; [done|].
      apply elem_of_app. right. apply list_elem_of_here.
    + rewrite lookup_insert_ne by done. intros Hk.
      destruct (IH k meta Hk) as [? ?]. split; [done|].
      apply elem_of_app. by left.
Qed.

(** With pairwise distinct ids the storage does not depend on the order
    the tokens are listed in. *)
Theorem storage_order_irrelevant (tokens1 tokens2 : list TokenMetadata)
    (owner : string) :
  tokens1 ≡ₚ tokens2 →
  NoDup (token_id <$> tokens1) →
  createNftStorage tokens1 owner = createNftStorage tokens2 owner.
Proof.
  intros Hperm Hnodup1.
  assert (NoDup (token_id <$> tokens2)) as Hnodup2 by (by rewrite <- Hperm).
  assert (ledger (createNftStorage tokens1 owner)
          = ledger (createNftStorage tokens2 owner)) as Hl.
  { apply map_eq. intros k. rewrite !ledger_lookup.
    destruct (decide (k ∈ token_id <$> tokens1)) as [Hin|Hnin];
      destruct (decide (k ∈ token_id <$> tokens2)) as [Hin'|Hnin']; try done.
    - exfalso. apply Hnin'. by rewrite <- Hperm.
    - exfalso. apply Hnin. by rewrite Hperm. }
  assert (token_metadata (createNftStorage tokens1 owner)
          = token_metadata (createNftStorage tokens2 owner)) as Hm.
  { apply map_eq. intros k.
    destruct (decide (k ∈ token_id <$> tokens1)) as [Hin|Hnin].
    - apply list_elem_of_fmap in Hin as (meta & -> & Hin).
      rewrite !metadata_lookup_listed; try done. by rewrite <- Hperm.
    - rewrite !metadata_lookup_absent; try done. by rewrite <- Hperm. }
  unfold createNftStorage in *. simpl in *. by rewrite Hl, Hm.
Qed.

End StorageMore.

Section StorageMoreExamples.

Import Demo.

Lemma storage_order_irrelevant_witness :
  createNftStorage [token 1 "TK1" "first"; token 2 "TK2" "second"] "tz1bob"
  = createNftStorage [token 2 "TK2" "second"; token 1 "TK1" "first"] "tz1bob".
Proof.
  apply (storage_order_irrelevant
           [token 1 "TK1" "first"; token 2 "TK2" "second"]
           [token 2 "TK2" "second"; token 1 "TK1" "first"] "tz1bob").
  - apply perm_swap.
  - apply (bool_decide_unpack
             (NoDup (token_id <$> [token 1 "TK1" "first"; token 2 "TK2" "second"]))).
    vm_compute. exact I.
Defined.

End StorageMoreExamples.

(** ** What the commands leave alone *)

(** [network === 'sandbox'] *)
Lemma on_sandbox {A} (v : jsval) (a b : A) :
  match v with
  | JString "sandbox" => a
  | _ => b
  end = if decide (v = JString "sandbox") then a else b.
Proof.
  destruct (decide (v = JString "sandbox")) as [->|Hne]; [done|].
  destruct v as [| | | |s|]; try reflexivity.
  do 7 (destruct s as [|[[] [] [] [] [] [] [] []] s]; try reflexivity).
  destruct s; [done|reflexivity].
Qed.

Section FrameRules.

Context `{BN : BigNumberLib} {EXT : Externals}.

Lemma keeps_store_ret {A} (a : A) : keeps_store (ret a).
Proof. by intros w. Qed.

Lemma keeps_store_fail {A} (e : failure) : keeps_store (@fail _ A e).
Proof. by intros w. Qed.

Lemma keeps_store_log (line : string) : keeps_store (log line).
Proof. by intros w. Qed.

Lemma keeps_store_log_all (lines : list string) : keeps_store (log_all lines).
Proof. by intros w. Qed.

Lemma keeps_store_call {A} (ev : event) (ans : list event → answer A) :
  keeps_store (call ev ans).
Proof. by intros w. Qed.

Lemma keeps_store_loadUserConfig : keeps_store loadUserConfig.
Proof. by intros w. Qed.

Lemma keeps_store_bind {A B} (m : M A) (k : A → M B) :
  keeps_store m → (∀ a, keeps_store (k a)) → keeps_store (bind m k).
Proof.
  intros Hm Hk w. unfold bind. specialize (Hm w).
  destruct (m w) as [[a|e] w1]; simpl in *; [|done].
  by rewrite Hk.
Qed.

Lemma keeps_store_try_catch {A} (m : M A) (handler : failure → M A) :
  keeps_store m → (∀ e, keeps_store (handler e)) → keeps_store (try_catch m handler).
Proof.
  intros Hm Hh w. unfold try_catch. specialize (Hm w).
  destruct (m w) as [[a|e] w1]; simpl in *; [done|].
  by rewrite Hh.
Qed.

Lemma keeps_store_retry_attempt {A} (fn : M A) (timeouts : nat) :
  keeps_store fn → ∀ errors, keeps_store (retry_attempt fn timeouts errors).
Proof.
  intros Hfn. induction timeouts as [|n IH]; intros errors w;
    rewrite retry_attempt_unfold; specialize (Hfn w);
    destruct (fn w) as [[a|e] w1]; simpl in *; try done.
  by rewrite IH.
Qed.

Lemma keeps_store_Promise_all {A} (ps : list (M A)) :
  Forall keeps_store ps → keeps_store (Promise_all ps).
Proof.
  induction ps as [|p ps IH]; intros Hall w; [done|].
  apply Forall_cons in Hall as [Hp Hps]. simpl.
  specialize (Hp w). destruct (p w) as [r w1]. simpl in Hp.
  specialize (IH Hps w1). destruct (Promise_all ps w1) as [rs w2]. simpl in *.
  congruence.
Qed.

(** Splits a goal [keeps_store m] along the structure of [m]. *)
Ltac frame :=
  repeat match goal with
         | |- keeps_store (ret _) => apply keeps_store_ret
         | |- keeps_store (fail _) => apply keeps_store_fail
         | |- keeps_store (log _) => apply keeps_store_log
         | |- keeps_store (log_all _) => apply keeps_store_log_all
         | |- keeps_store (call _ _) => apply keeps_store_call
         | |- keeps_store loadUserConfig => apply keeps_store_loadUserConfig
         | |- keeps_store (bind _ _) => apply keeps_store_bind; [|intros ?]
         | |- keeps_store (try_catch _ _) => apply keeps_store_try_catch; [|intros ?]
         | |- keeps_store (retry_attempt _ _ _) => apply keeps_store_retry_attempt
         | |- keeps_store (match ?x with _ => _ end) => destruct x
         end.

Lemma keeps_store_createToolkit (alias : string) (config : Configstore) :
  keeps_store (createToolkit alias config).
Proof.
  unfold createToolkit, createToolkitFromSigner, mbind, M_bind, mret, M_ret.
  frame.
Qed.

Lemma keeps_store_originateContract (tz : TezosToolkit) (code : string)
    (storage : storage_arg) (name : string) :
  keeps_store (originateContract tz code storage name).
Proof.
  unfold originateContract, mbind, M_bind, mret, M_ret. cbv zeta. frame.
Qed.

(** The same, stopping at the two commands above. *)
Ltac frame_commands :=
  repeat match goal with
         | |- keeps_store (createToolkit _ _) => apply keeps_store_createToolkit
         | |- keeps_store (originateContract _ _ _ _) =>
             apply keeps_store_originateContract
         | |- _ => progress frame
         end.

Lemma keeps_store_resolveOperators (owner : string) (operators : list string)
    (config : Configstore) :
  keeps_store (resolveOperators owner operators config).
Proof.
  unfold resolveOperators. cbv zeta. apply keeps_store_Promise_all.
  apply Forall_fmap, Forall_true. intros o.
  unfold compose, resolveOperator, mbind, M_bind, mret, M_ret. cbv zeta. frame.
Qed.

Lemma keeps_store_startSandbox : keeps_store startSandbox.
Proof.
  unfold startSandbox, retry, startSandbox_probe, mbind, M_bind, mret, M_ret.
  cbv zeta. frame_commands.
Qed.

Lemma keeps_store_kill (exec_error : ExecResult → string) :
  keeps_store (kill exec_error).
Proof.
  unfold kill, killSandbox, mbind, M_bind, mret, M_ret. cbv zeta.
  apply keeps_store_bind; [apply keeps_store_loadUserConfig|]. intros config.
  rewrite on_sandbox. case_decide; frame.
Qed.

(** The configuration is written by [bootstrap] alone: minting, the
    balance query, the resolution of operators, starting and stopping
    the sandbox leave it as it is, whatever their outcome. *)
Theorem commands_keep_store :
  (∀ owner tokens, keeps_store (mintNfts owner tokens))
  ∧ (∀ signer nft owner tokens, keeps_store (showBalances signer nft owner tokens))
  ∧ (∀ owner operators config, keeps_store (resolveOperators owner operators config))
  ∧ keeps_store startSandbox
  ∧ (∀ exec_error, keeps_store (kill exec_error)).
Proof.
  split; [|split; [|split; [|split]]].
  - intros owner tokens.
    unfold mintNfts, mbind, M_bind, mret, M_ret. cbv zeta.
    destruct (length tokens =? 0)%nat; frame_commands.
  - intros signer nft owner tokens.
    unfold showBalances, printBalances, mbind, M_bind, mret, M_ret. cbv zeta.
    frame_commands.
  - apply keeps_store_resolveOperators.
  - apply keeps_store_startSandbox.
  - apply keeps_store_kill.
Qed.

End FrameRules.

(** ** Origination and minting, in every outcome *)

(** Destructs what the goal matches on, innermost scrutinee first. *)
Ltac split_cases :=
  repeat (match goal with
          | |- context [match ?x with _ => _ end] =>
              lazymatch x with
              | context [match _ with _ => _ end] => fail
              | _ => destruct x eqn:?; simpl
              end
          end).

Section Effects.

Context `{BN : BigNumberLib} {EXT : Externals}.

Lemma originations_app (h1 h2 : list event) :
  originations (h1 ++ h2) = (originations h1 + originations h2)%nat.
Proof. unfold originations. by rewrite filter_app, length_app. Qed.

Lemma network_requests_app (h1 h2 : list event) :
  network_requests (h1 ++ h2) = (network_requests h1 + network_requests h2)%nat.
Proof. unfold network_requests. by rewrite filter_app, length_app. Qed.

(** Counts the originations of a history that ends in explicit events. *)
Ltac count_originations :=
  simpl; rewrite ?originations_app; unfold originations; simpl; lia.

(** [originateContract] submits the origination once in every outcome,
    never writes the configuration, prints nothing when it succeeds and
    one line, with the label and the error, when it fails. *)
Theorem originateContract_effects (tz : TezosToolkit) (code : string)
    (storage : storage_arg) (name : string) (w : World) :
  store (snd (originateContract tz code storage name w)) = store w
  ∧ originations (trace (snd (originateContract tz code storage name w)))
    = S (originations (trace w))
  ∧ match fst (originateContract tz code storage name w) with
    | Ok _ => console (snd (originateContract tz code storage name w)) = console w
    | Err e =>
        console (snd (originateContract tz code storage name w))
        = console w ++ [name +:+ " origination error " +:+ JSON_stringify_indent e]
    end.
Proof.
  split; [apply keeps_store_originateContract|].
  unfold originateContract. run.
  destruct (contract_originate (trace w) tz (origParam_of code storage)) as [op|e];
    simpl.
  - destruct (originationOp_contract _ op) as [address|e]; simpl;
      (split; [count_originations|done]).
  - split; [count_originations|done].
Qed.

(** [mintNfts] submits at most one origination, whatever happens. *)
Theorem mintNfts_at_most_one_origination (owner : string)
    (tokens : list TokenMetadata) (w : World) :
  (originations (trace (snd (mintNfts owner tokens w)))
   ≤ S (originations (trace w)))%nat.
Proof.
  unfold mintNfts. destruct tokens as [|meta tokens]; simpl; [lia|].
  unfold createToolkit, createToolkitFromSigner, originateContract. run.
  split_cases; count_originations.
Qed.

(** A mint that goes through: the owner written into the ledger is the
    public key hash of the resolved signer, the storage submitted is
    [createNftStorage] of the tokens, and the address of the new contract
    is printed, not stored. *)
Theorem mintNfts_success (owner : string) (tokens : list TokenMetadata) (w : World)
    (s : InMemorySigner) (ownerAddress code op nftAddress : string) :
  let path := path_join_dirname "../ligo/out/fa2_fixed_collection_token.tz" in
  let param := CodeStorage code (createNftStorage tokens ownerAddress) in
  let h := trace w ++ [EvResolveSigner owner; EvPublicKeyHash s; EvLoadFile path] in
  tokens ≠ [] →
  resolveAlias2Signer owner (store w) = Ok s →
  truthy (config_get (store w) (activeNetworkKey (store w) +:+ ".providerUrl")) = true →
  publicKeyHash s = Ok ownerAddress →
  loadFile path = Ok code →
  contract_originate h (toolkit_of s (store w)) param = Ok op →
  originationOp_contract (h ++ [EvOriginate param]) op = Ok nftAddress →
  mintNfts owner tokens w
  = (Ok tt,
     {| store := store w;
        console := console w ++ ["originating new NFT contract...";
                                 "originated NFT collection " +:+ nftAddress];
        trace := h ++ [EvOriginate param; EvOriginationContract op] |}).
Proof.
  intros path param h Hne Hs Hurl Hpkh Hfile Horig Hconf.
  unfold mintNfts. destruct tokens as [|meta tokens]; [done|].
  change (length (meta :: tokens) =? 0)%nat with false. cbv iota.
  unfold createToolkit. run. rewrite Hs. simpl.
  rewrite createToolkitFromSigner_configured by done. simpl.
  rewrite Hpkh. simpl. fold path. rewrite Hfile. simpl.
  unfold originateContract. run.
  fold (toolkit_of s (store w)).
  rewrite <- !app_assoc. simpl. fold h. fold param.
  unfold origParam_of. fold param. rewrite Horig. simpl.
  unfold h in *. rewrite <- !app_assoc in *. simpl in *. rewrite Hconf. simpl.
  by rewrite <- !app_assoc.
Qed.

End Effects.

Section EffectsExamples.

Import Demo.

Lemma mintNfts_success_witness :
  mintNfts (EXT := externals 0 true) "bob" [token 1 "TK1" "first"] (world sandbox_config)
  = (Ok tt,
     {| store := sandbox_config;
        console := ["originating new NFT contract...";
                    "originated NFT collection KT1new"];
        trace := [EvResolveSigner "bob"; EvPublicKeyHash bob_signer;
                  EvLoadFile "/tznft/../ligo/out/fa2_fixed_collection_token.tz"]
                 ++ [EvOriginate
                       (CodeStorage
                          "code of /tznft/../ligo/out/fa2_fixed_collection_token.tz"
                          (createNftStorage [token 1 "TK1" "first"] "tz1-of-edsk-bob"));
                     EvOriginationContract "op1"] |}).
Proof.
  apply (mintNfts_success (EXT := externals 0 true) "bob" [token 1 "TK1" "first"]
           (world sandbox_config) bob_signer "tz1-of-edsk-bob"
           "code of /tznft/../ligo/out/fa2_fixed_collection_token.tz" "op1" "KT1new");
    done.
Defined.

End EffectsExamples.

(** ** The balance query, with an inspector *)

Section BalancesMore.

Context `{BN : BigNumberLib} {EXT : Externals}.

(** With an inspector address in the configuration, [showBalances] asks
    the inspector once, for every token with the resolved address of the
    owner, waits for the confirmation and reads the storage: it prints
    the balances when the state is a list, and is rejected with ['Invalid
    inspector storage state Empty.'] when it is not. *)
Theorem showBalances_with_inspector (signer nft owner : string)
    (tokens : list string) (w : World) (s : InMemorySigner)
    (ownerAddress nftAddress address op : string)
    (storage : option (list BalanceOfResponse)) :
  let tz := toolkit_of s (store w) in
  let requests := balance_requests ownerAddress tokens in
  let h := trace w ++ [EvResolveSigner signer; EvResolveAddress owner;
                       EvResolveAddress nft] in
  resolveAlias2Signer signer (store w) = Ok s →
  truthy (config_get (store w) (activeNetworkKey (store w) +:+ ".providerUrl")) = true →
  resolveAlias2Address owner (store w) = Ok ownerAddress →
  resolveAlias2Address nft (store w) = Ok nftAddress →
  config_get (store w) (inspectorKey (store w)) = JString address →
  address ≠ EmptyString →
  contract_at h tz address = Ok tt →
  query_send (h ++ [EvContractAt address]) address nftAddress requests = Ok op →
  op_confirmation (h ++ [EvContractAt address; EvQuerySend address nftAddress requests])
    op = Ok tt →
  inspector_storage
    (h ++ [EvContractAt address; EvQuerySend address nftAddress requests;
           EvConfirmation op]) address = Ok storage →
  showBalances signer nft owner tokens w
  = (match storage with
     | Some _ => Ok tt
     | None => Err (Reject_string "Invalid inspector storage state Empty.")
     end,
     {| store := store w;
        console := console w
                   ++ ("querying NFT contract " +:+ nftAddress
                       +:+ " using balance inspector " +:+ address)
                      :: match storage with
                         | Some state => "requested NFT balances:"
                                         :: (balance_line <$> state)
                         | None => ["invalid inspector storage state"]
                         end;
        trace := h ++ [EvContractAt address;
                       EvQuerySend address nftAddress requests;
                       EvConfirmation op;
                       EvStorage address] |}).
Proof.
  intros tz requests h Hs Hurl Ho Hn Hkey Hne Hat Hsend Hconf Hstorage.
  unfold showBalances, createToolkit. run. rewrite Hs. simpl.
  rewrite createToolkitFromSigner_configured by done. simpl.
  rewrite Ho. simpl. rewrite Hn. simpl. rewrite Hkey.
  destruct address as [|c a]; [done|].
  subst tz requests h. unfold toolkit_of, balance_requests in *.
  rewrite <- !app_assoc in *. simpl in *.
  rewrite Hat. simpl. rewrite <- ?app_assoc. simpl.
  rewrite Hsend. simpl. rewrite <- ?app_assoc. simpl.
  rewrite Hconf. simpl. rewrite <- ?app_assoc. simpl.
  rewrite Hstorage. simpl.
  destruct storage as [state|]; unfold printBalances; run;
    by rewrite <- !app_assoc.
Qed.

Lemma network_requests_snoc (h : list event) (ev : event) :
  is_network_request ev = false →
  network_requests (h ++ [ev]) = network_requests h.
Proof.
  intros Hev. rewrite network_requests_app. unfold network_requests at 2.
  rewrite filter_cons_False by (by rewrite Hev). simpl. lia.
Qed.

(** [showBalances] sends nothing to the node unless the signer and both
    addresses resolve, a provider is configured and the configuration
    holds an inspector address. *)
Theorem showBalances_reaches_node_only_when_ready (signer nft owner : string)
    (tokens : list string) (w : World) :
  network_requests (trace (snd (showBalances signer nft owner tokens w)))
    ≠ network_requests (trace w) →
  is_ok (resolveAlias2Signer signer (store w)) = true
  ∧ truthy (config_get (store w) (activeNetworkKey (store w) +:+ ".providerUrl")) = true
  ∧ is_ok (resolveAlias2Address owner (store w)) = true
  ∧ is_ok (resolveAlias2Address nft (store w)) = true
  ∧ ∃ address, config_get (store w) (inspectorKey (store w)) = JString address
               ∧ address ≠ EmptyString.
Proof.
  unfold showBalances, createToolkit. run.
  destruct (resolveAlias2Signer signer (store w)) as [s|e]; simpl.
  2:{ intros H. exfalso. apply H. by apply network_requests_snoc. }
  destruct (truthy (config_get (store w) (activeNetworkKey (store w) +:+ ".providerUrl")))
    eqn:Hurl.
  2:{ rewrite createToolkitFromSigner_not_configured by done. simpl.
      intros H. exfalso. apply H. by apply network_requests_snoc. }
  rewrite createToolkitFromSigner_configured by done. simpl.
  destruct (resolveAlias2Address owner (store w)) as [oa|e]; simpl.
  2:{ intros H. exfalso. apply H. by rewrite !network_requests_snoc. }
  destruct (resolveAlias2Address nft (store w)) as [na|e]; simpl.
  2:{ intros H. exfalso. apply H. by rewrite !network_requests_snoc. }
  destruct (config_get (store w) (inspectorKey (store w))) as [| | | |[|c a]|] eqn:Hkey;
    simpl; try (intros H; exfalso; apply H; by rewrite !network_requests_snoc).
  intros _. repeat split; try done. by exists (String c a).
Qed.

End BalancesMore.

Section BalancesMoreExamples.

Import Demo.

Lemma showBalances_with_inspector_witness :
  fst (showBalances (EXT := externals 0 true) "bob" "nft" "alice" ["1"; "2"]
         (world bootstrapped_config)) = Ok tt
  ∧ trace (snd (showBalances (EXT := externals 0 true) "bob" "nft" "alice" ["1"; "2"]
                  (world bootstrapped_config)))
    = [EvResolveSigner "bob"; EvResolveAddress "alice"; EvResolveAddress "nft";
       EvContractAt "KT1inspector";
       EvQuerySend "KT1inspector" "KT1nft" (balance_requests "tz1alice" ["1"; "2"]);
       EvConfirmation "op2"; EvStorage "KT1inspector"].
Proof.
  rewrite (showBalances_with_inspector (EXT := externals 0 true)
             "bob" "nft" "alice" ["1"; "2"] (world bootstrapped_config)
             bob_signer "tz1alice" "KT1nft" "KT1inspector" "op2" (Some []));
    done.
Defined.

Lemma showBalances_reaches_node_only_when_ready_witness :
  ∃ address,
    config_get bootstrapped_config
      (inspectorKey (Externals := externals 0 true) bootstrapped_config)
    = JString address
    ∧ address ≠ EmptyString.
Proof.
  apply (showBalances_reaches_node_only_when_ready (EXT := externals 0 true)
           "bob" "nft" "alice" ["1"] (world bootstrapped_config)).
  vm_compute. discriminate.
Defined.

End BalancesMoreExamples.

(** ** More on operator lists *)

Section OperatorsMore.

Context `{BN : BigNumberLib} {EXT : Externals}.

Lemma split_at_separator (sep : ascii) (a rest : string) :
  count_char sep a = 0%nat →
  Js.split sep (a +:+ String sep rest) = a :: Js.split sep rest.
Proof.
  induction a as [|c a IH]; simpl.
  - intros _. by rewrite Ascii.eqb_refl.
  - destruct (Ascii.eqb c sep); [discriminate|]. simpl.
    intros H. by rewrite IH.
Qed.

(** An operator descriptor is cut at its commas and nothing is trimmed:
    the alias looked up is the text before the first comma as it was
    typed, and the token id the [BigNumber] of the text after it. *)
Theorem operator_fields_as_typed (owner : string) (config : Configstore)
    (a t : string) (w : World) :
  count_char "," a = 0%nat →
  count_char "," t = 0%nat →
  fst (resolveOperator owner config (a +:+ String "," t) w)
  = match resolveAlias2Address a config with
    | Ok operator =>
        Ok {| op_owner := owner;
              op_operator := operator;
              op_token_id := bn_of_string (Some t) |}
    | Err e => Err (External e)
    end
  ∧ trace (snd (resolveOperator owner config (a +:+ String "," t) w))
    = trace w ++ [EvResolveAddress a].
Proof.
  intros Ha Ht. rewrite resolveOperator_run. simpl.
  unfold operator_param, operator_alias.
  rewrite (split_at_separator _ _ _ Ha), (split_without_separator _ _ Ht). simpl.
  by destruct (resolveAlias2Address a config).
Qed.

(** A descriptor without a token id is not refused: when its alias
    resolves, the parameter gets the [BigNumber] of [undefined] as token
    id. *)
Theorem operator_without_token_id (owner : string) (config : Configstore)
    (o operator : string) (w : World) :
  count_char "," o = 0%nat →
  resolveAlias2Address o config = Ok operator →
  fst (resolveOperators owner [o] config w)
  = Ok [ {| op_owner := owner;
            op_operator := operator;
            op_token_id := bn_of_string None |} ].
Proof.
  intros Ho Hres. rewrite resolveOperators_run. simpl.
  unfold operator_param, operator_alias.
  rewrite (split_without_separator _ _ Ho). simpl. by rewrite Hres.
Qed.

(** Every descriptor that fails is reported, with two lines, in the
    order of the list; the others print nothing. *)
Theorem resolveOperators_reports_every_failure (owner : string)
    (operators : list string) (config : Configstore) (w : World) :
  console (snd (resolveOperators owner operators config w))
    = console w ++ concat (operator_log owner config <$> operators)
  ∧ length (concat (operator_log owner config <$> operators))
    = (2 * length (filter (fun o => is_ok (operator_param owner config o) = false)
                     operators))%nat.
Proof.
  rewrite resolveOperators_run. split; [done|].
  induction operators as [|o os IH]; [done|].
  rewrite fmap_cons. simpl concat. rewrite length_app, IH.
  unfold operator_log at 1.
  destruct (operator_param owner config o) eqn:E.
  - rewrite filter_cons_False by (by rewrite E). simpl. lia.
  - rewrite filter_cons_True by (by rewrite E). simpl. lia.
Qed.

(** A list that is returned has one parameter for each descriptor, each
    with the owner the call was given. *)
Theorem resolved_operators_shape (owner : string) (operators : list string)
    (config : Configstore) (w : World) (params : list OperatorParam) :
  fst (resolveOperators owner operators config w) = Ok params →
  length params = length operators
  ∧ Forall (fun p => op_owner p = owner) params.
Proof.
  rewrite resolveOperators_run. simpl. intros H.
  apply all_or_nothing_ok in H. clear w.
  revert params H. induction operators as [|o os IH]; intros [|p ps] H;
    try discriminate; [by split|].
  simpl in H. injection H as Ho Hos. destruct (IH ps Hos) as [Hlen Hall].
  split; [simpl; by rewrite Hlen|]. constructor; [|done].
  unfold operator_param in Ho.
  destruct (resolveAlias2Address (operator_alias o) config); [|discriminate].
  by injection Ho as <-.
Qed.

End OperatorsMore.

Section OperatorsMoreExamples.

Import Demo.

Lemma operator_fields_as_typed_witness :
  fst (resolveOperator (EXT := externals 0 true) "tz1bob" sandbox_config
         ("bob" +:+ String "," " 1") (world sandbox_config))
  = match resolveAlias2Address (Externals := externals 0 true) "bob" sandbox_config with
    | Ok operator =>
        Ok {| op_owner := "tz1bob";
              op_operator := operator;
              op_token_id := bn_of_string (Some " 1") |}
    | Err e => Err (External e)
    end
  ∧ trace (snd (resolveOperator (EXT := externals 0 true) "tz1bob" sandbox_config
                  ("bob" +:+ String "," " 1") (world sandbox_config)))
    = trace (world sandbox_config) ++ [EvResolveAddress "bob"].
Proof.
  apply (operator_fields_as_typed (EXT := externals 0 true) "tz1bob" sandbox_config
           "bob" " 1" (world sandbox_config)); reflexivity.
Defined.

Lemma operator_without_token_id_witness :
  fst (resolveOperators (EXT := externals 0 true) "tz1bob" ["alice"] sandbox_config
         (world sandbox_config))
  = Ok [ {| op_owner := "tz1bob";
            op_operator := "tz1alice";
            op_token_id := bn_of_string None |} ].
Proof.
  apply (operator_without_token_id (EXT := externals 0 true) "tz1bob" sandbox_config
           "alice" "tz1alice" (world sandbox_config)); reflexivity.
Defined.

Lemma resolved_operators_shape_witness :
  length [ {| op_owner := "tz1bob"; op_operator := "tz1alice";
              op_token_id := Some 1%Z |};
           {| op_owner := "tz1bob"; op_operator := "tz1bob";
              op_token_id := Some 2%Z |} ] = length ["alice,1"; "bob,2"]
  ∧ Forall (fun p => op_owner p = "tz1bob")
      [ {| op_owner := "tz1bob"; op_operator := "tz1alice";
           op_token_id := Some 1%Z |};
        {| op_owner := "tz1bob"; op_operator := "tz1bob";
           op_token_id := Some 2%Z |} ].
Proof.
  apply (resolved_operators_shape (EXT := externals 0 true) "tz1bob"
           ["alice,1"; "bob,2"] sandbox_config (world sandbox_config)).
  reflexivity.
Defined.

End OperatorsMoreExamples.

(** ** Updating operators *)

Section UpdateOperators.

Context `{BN : BigNumberLib} {EXT : Externals}.

Variable fa2_updateOperators :
  string → TezosToolkit → list OperatorParam → list OperatorParam → M unit.

(** The world when the lists of [updateOperators] start to be resolved. *)
Let resolving (owner : string) (s : InMemorySigner) (w : World) : World :=
  {| store := store w;
     console := console w;
     trace := trace w ++ [EvResolveSigner owner; EvPublicKeyHash s] |}.

Lemma updateOperators_run (owner nft : string) (add remove : list string)
    (w : World) (s : InMemorySigner) (ownerAddress : string) :
  resolveAlias2Signer owner (store w) = Ok s →
  truthy (config_get (store w) (activeNetworkKey (store w) +:+ ".providerUrl")) = true →
  publicKeyHash s = Ok ownerAddress →
  updateOperators fa2_updateOperators owner nft add remove w
  = bind (resolveOperators ownerAddress add (store w))
      (fun resolvedAdd =>
         bind (resolveOperators ownerAddress remove (store w))
           (fun resolvedRemove =>
              bind (call (EvResolveAddress nft)
                      (fun _ => resolveAlias2Address nft (store w)))
                (fun nftAddress =>
                   fa2_updateOperators nftAddress (toolkit_of s (store w))
                     resolvedAdd resolvedRemove)))
      (resolving owner s w).
Proof.
  intros Hs Hurl Hpkh. unfold updateOperators, createToolkit.
  unfold mbind, M_bind, mret, M_ret, loadUserConfig, call.
  unfold bind at 1 2 3 4. simpl. rewrite Hs. simpl.
  rewrite createToolkitFromSigner_configured by done. simpl.
  rewrite Hpkh. simpl. unfold resolving. by rewrite <- !app_assoc.
Qed.

(** When a descriptor of the list to add fails, [updateOperators] stops
    there: the list to remove is not looked at, the contract alias is not
    resolved and nothing is handed to [fa2.updateOperators]. *)
Theorem updateOperators_stops_at_failed_add (owner nft : string)
    (add remove : list string) (w : World) (s : InMemorySigner)
    (ownerAddress : string) :
  resolveAlias2Signer owner (store w) = Ok s →
  truthy (config_get (store w) (activeNetworkKey (store w) +:+ ".providerUrl")) = true →
  publicKeyHash s = Ok ownerAddress →
  (∃ o, o ∈ add ∧ is_ok (operator_param ownerAddress (store w) o) = false) →
  ∃ e, updateOperators fa2_updateOperators owner nft add remove w
       = (Err e,
          {| store := store w;
             console := console w
                        ++ concat (operator_log ownerAddress (store w) <$> add);
             trace := trace w
                      ++ [EvResolveSigner owner; EvPublicKeyHash s]
                      ++ ((fun o => EvResolveAddress (operator_alias o)) <$> add) |}).
Proof.
  intros Hs Hurl Hpkh (o & Hin & Ho).
  rewrite (updateOperators_run _ _ _ _ _ s ownerAddress) by done.
  unfold bind at 1. rewrite resolveOperators_run.
  destruct (proj1 (all_or_nothing_err (operator_param ownerAddress (store w) <$> add)))
    as [e He].
  { exists (operator_param ownerAddress (store w) o). split; [|done].
    apply list_elem_of_fmap. eauto. }
  rewrite He. exists e. simpl. by rewrite <- !app_assoc.
Qed.

(** When everything resolves, [fa2.updateOperators] is handed the
    resolved contract address, the handle of the owner and the two
    resolved lists, additions first, after all the look-ups: the owner's
    key hash, the list to add, the list to remove, the contract. *)
Theorem updateOperators_hands_over (owner nft : string)
    (add remove : list string) (w : World) (s : InMemorySigner)
    (ownerAddress nftAddress : string) (adds removes : list OperatorParam) :
  resolveAlias2Signer owner (store w) = Ok s →
  truthy (config_get (store w) (activeNetworkKey (store w) +:+ ".providerUrl")) = true →
  publicKeyHash s = Ok ownerAddress →
  operator_param ownerAddress (store w) <$> add = Ok <$> adds →
  operator_param ownerAddress (store w) <$> remove = Ok <$> removes →
  resolveAlias2Address nft (store w) = Ok nftAddress →
  updateOperators fa2_updateOperators owner nft add remove w
  = fa2_updateOperators nftAddress (toolkit_of s (store w)) adds removes
      {| store := store w;
         console := console w;
         trace := trace w
                  ++ [EvResolveSigner owner; EvPublicKeyHash s]
                  ++ ((fun o => EvResolveAddress (operator_alias o)) <$> add)
                  ++ ((fun o => EvResolveAddress (operator_alias o)) <$> remove)
                  ++ [EvResolveAddress nft] |}.
Proof.
  intros Hs Hurl Hpkh Hadd Hremove Hnft.
  assert (∀ os, concat (operator_log ownerAddress (store w) <$> os) = []
                ∨ ∃ o, o ∈ os ∧ is_ok (operator_param ownerAddress (store w) o) = false)
    as Hlog.
  { induction os as [|o os [IH|(o' & Hin & Ho')]].
    - by left.
    - rewrite fmap_cons.
      change (concat (operator_log ownerAddress (store w) o
                      :: (operator_log ownerAddress (store w) <$> os)))
        with (operator_log ownerAddress (store w) o
              ++ concat (operator_log ownerAddress (store w) <$> os)).
      rewrite IH, app_nil_r. unfold operator_log.
      destruct (operator_param ownerAddress (store w) o) eqn:E.
      + by left.
      + right. exists o. split; [apply list_elem_of_here|by rewrite E].
    - right. exists o'. split; [by apply list_elem_of_further|done]. }
  assert (∀ os ps, operator_param ownerAddress (store w) <$> os = Ok <$> ps →
                   concat (operator_log ownerAddress (store w) <$> os) = []) as Hquiet.
  { intros os ps Hos. destruct (Hlog os) as [?|(o & Hin & Ho)]; [done|].
    exfalso.
    assert (operator_param ownerAddress (store w) o ∈ Ok <$> ps) as Hmem.
    { rewrite <- Hos. apply list_elem_of_fmap. eauto. }
    apply list_elem_of_fmap in Hmem as (p & Hp & _). by rewrite Hp in Ho. }
  rewrite (updateOperators_run _ _ _ _ _ s ownerAddress) by done.
  unfold bind at 1. rewrite resolveOperators_run.
  rewrite (proj2 (all_or_nothing_ok _ adds) Hadd), (Hquiet _ _ Hadd).
  unfold bind at 1. rewrite resolveOperators_run.
  rewrite (proj2 (all_or_nothing_ok _ removes) Hremove), (Hquiet _ _ Hremove).
  unfold bind, call. simpl. rewrite Hnft. simpl.
  by rewrite !app_nil_r, <- !app_assoc.
Qed.

End UpdateOperators.

Section UpdateOperatorsExamples.

Import Demo.

(** A stand-in for [fa2.updateOperators] that prints what it is handed. *)
Let print_lists (nftAddress : string) (tz : TezosToolkit)
    (adds removes : list OperatorParam) : M unit :=
  log_all ((nftAddress :: (op_operator <$> adds)) ++ (op_operator <$> removes)).

Lemma updateOperators_stops_at_failed_add_witness :
  ∃ e, updateOperators (EXT := externals 0 true) print_lists "bob" "nft"
         ["alice,1"; "carol,2"] ["bob,3"] (world sandbox_config)
       = (Err e,
          {| store := sandbox_config;
             console :=
               [] ++ concat (operator_log (EXT := externals 0 true)
                               "tz1-of-edsk-bob" sandbox_config
                             <$> ["alice,1"; "carol,2"]);
             trace := [] ++ [EvResolveSigner "bob"; EvPublicKeyHash bob_signer]
                      ++ ((fun o => EvResolveAddress (operator_alias o))
                          <$> ["alice,1"; "carol,2"]) |}).
Proof.
  apply (updateOperators_stops_at_failed_add (EXT := externals 0 true) print_lists
           "bob" "nft" ["alice,1"; "carol,2"] ["bob,3"] (world sandbox_config)
           bob_signer "tz1-of-edsk-bob"); try reflexivity.
  exists "carol,2". split; [|reflexivity].
  apply list_elem_of_further, list_elem_of_here.
Defined.

Lemma updateOperators_hands_over_witness :
  updateOperators (EXT := externals 0 true) print_lists "bob" "nft"
    ["alice,1"] ["bob,3"] (world sandbox_config)
  = (Ok tt,
     {| store := sandbox_config;
        console := ["KT1nft"; "tz1alice"; "tz1bob"];
        trace := [EvResolveSigner "bob"; EvPublicKeyHash bob_signer;
                  EvResolveAddress "alice"; EvResolveAddress "bob";
                  EvResolveAddress "nft"] |}).
Proof.
  rewrite (updateOperators_hands_over (EXT := externals 0 true) print_lists
             "bob" "nft" ["alice,1"] ["bob,3"] (world sandbox_config)
             bob_signer "tz1-of-edsk-bob" "KT1nft"
             [ {| op_owner := "tz1-of-edsk-bob"; op_operator := "tz1alice";
                  op_token_id := bn_of_string (Some "1") |} ]
             [ {| op_owner := "tz1-of-edsk-bob"; op_operator := "tz1bob";
                  op_token_id := bn_of_string (Some "3") |} ]);
    reflexivity.
Defined.

End UpdateOperatorsExamples.

(** ** Stopping the sandbox *)

Section Kill.

Context `{BN : BigNumberLib} {EXT : Externals}.

(** [kill] does nothing unless the active network is ['sandbox']; on the
    sandbox it runs the stop script once, and is rejected with the error of
    the script when the script fails. *)
Theorem kill_run (exec_error : ExecResult → string) (w : World) :
  let r := child_exec (trace w) kill_sandbox_cmd in
  kill exec_error w
  = if decide (config_get (store w) "activeNetwork" = JString "sandbox")
    then if exec_err r
         then (Err (External (exec_error r)),
               {| store := store w;
                  console := console w ++ ["failed to stop sandbox"; errout r];
                  trace := trace w ++ [EvExec kill_sandbox_cmd] |})
         else (Ok tt,
               {| store := store w;
                  console := console w ++ [stdout r; "killed sandbox."];
                  trace := trace w ++ [EvExec kill_sandbox_cmd] |})
    else (Ok tt, w).
Proof.
  intros r. unfold kill. run. rewrite on_sandbox.
  case_decide; [|done]. unfold killSandbox. run. fold r.
  destruct (exec_err r); simpl; by rewrite <- !app_assoc.
Qed.

End Kill.

(** ** More on bootstrap *)

Section BootstrapMore.

Context `{BN : BigNumberLib} {EXT : Externals}.

Lemma bootstrap_run (w : World) :
  bootstrap w
  = try_catch
      (bind (if decide (config_get (store w) "activeNetwork" = JString "sandbox")
             then startSandbox else ret tt)
         (fun _ => originateBalanceInspector (store w) "bob"))
      (fun err => bind (log ("failed to start. " +:+ JSON_stringify err))
                    (fun _ => fail err))
      w.
Proof. unfold bootstrap. run. by rewrite on_sandbox. Qed.

Lemma keeps_store_originateInspector (tezos : TezosToolkit) :
  keeps_store (originateInspector tezos).
Proof.
  unfold originateInspector, mbind, M_bind, mret, M_ret. cbv zeta.
  apply keeps_store_bind; [apply keeps_store_call|]. intros code.
  apply keeps_store_originateContract.
Qed.

Lemma originateBalanceInspector_store (config : Configstore) (alias : string)
    (w : World) (r : result unit) (w' : World) :
  originateBalanceInspector config alias w = (r, w') →
  match r with
  | Ok _ => ∃ address, store w' = <[inspectorKey config := JString address]> (store w)
  | Err _ => store w' = store w
  end.
Proof.
  unfold originateBalanceInspector, mbind, M_bind, mret, M_ret.
  unfold bind, log, config_set. simpl.
  set (w0 := {| store := store w;
                console := console w ++ ["originating balance inspector contract..."];
                trace := trace w |}).
  pose proof (keeps_store_createToolkit alias config w0) as Htk.
  destruct (createToolkit alias config w0) as [[tk|e] w1]; simpl in *.
  - pose proof (keeps_store_originateInspector tk w1) as Hins.
    destruct (originateInspector tk w1) as [[address|e] w2]; simpl in *.
    + intros [= <- <-]. exists address. simpl. congruence.
    + intros [= <- <-]. congruence.
  - by intros [= <- <-].
Qed.

(** [bootstrap] writes the configuration only when it succeeds, and then
    one key only, the inspector key of the configuration it started with
    (which address it holds is in [bootstrap_records_originated_address]
    below).  A bootstrap that fails leaves the configuration as it was. *)
Theorem bootstrap_store (w : World) :
  match fst (bootstrap w) with
  | Ok _ =>
      ∃ address,
        store (snd (bootstrap w))
        = <[inspectorKey (store w) := JString address]> (store w)
        ∧ config_get (store (snd (bootstrap w))) (inspectorKey (store w))
          = JString address
  | Err _ => store (snd (bootstrap w)) = store w
  end.
Proof.
  destruct (bootstrap w) as [r w'] eqn:Hrun. simpl.
  rewrite bootstrap_run in Hrun. unfold try_catch, bind, log, fail in Hrun.
  assert (keeps_store (if decide (config_get (store w) "activeNetwork"
                                  = JString "sandbox")
                       then startSandbox else ret tt)) as Hstart.
  { case_decide; [apply keeps_store_startSandbox|apply keeps_store_ret]. }
  specialize (Hstart w).
  destruct ((if decide (config_get (store w) "activeNetwork" = JString "sandbox")
             then startSandbox else ret tt) w) as [[u|e] w1]; simpl in *.
  - pose proof (originateBalanceInspector_store (store w) "bob" w1) as Horig.
    destruct (originateBalanceInspector (store w) "bob" w1) as [[u'|e] w2].
    + injection Hrun as <- <-.
      destruct (Horig _ _ eq_refl) as (address & ->). exists address.
      rewrite Hstart. split; [done|]. unfold config_get. by rewrite lookup_insert_eq.
    + injection Hrun as <- <-. simpl. specialize (Horig _ _ eq_refl).
      simpl in Horig. congruence.
  - by injection Hrun as <- <-.
Qed.

(** Off the sandbox network [bootstrap] runs no script and probes
    nothing: it starts by resolving the signer of [bob], and none of its
    requests is a shell command or a block-header request. *)
Theorem bootstrap_without_sandbox (w : World) :
  config_get (store w) "activeNetwork" ≠ JString "sandbox" →
  ∃ rest, trace (snd (bootstrap w)) = trace w ++ EvResolveSigner "bob" :: rest
          ∧ Forall (fun ev => is_sandbox_event ev = false) rest.
Proof.
  intros Hnet. rewrite bootstrap_run. rewrite decide_False by done.
  unfold originateBalanceInspector, originateInspector, originateContract,
    createToolkit, createToolkitFromSigner, config_set. run.
  split_cases;
    (eexists; split;
     [rewrite <- ?app_assoc; simpl; reflexivity|repeat constructor]).
Qed.

(** When the start script of the sandbox fails, [bootstrap] is rejected
    with [undefined]: no handle is built, nothing is probed and nothing
    originated. *)
Theorem bootstrap_script_failure (w : World) :
  let r := child_exec (trace w) start_sandbox_cmd in
  config_get (store w) "activeNetwork" = JString "sandbox" →
  exec_err r = true →
  bootstrap w
  = (Err Reject_undefined,
     {| store := store w;
        console := console w
                   ++ ["failed to start sandbox"; errout r;
                       "failed to start. " +:+ JSON_stringify Reject_undefined];
        trace := trace w ++ [EvExec start_sandbox_cmd] |}).
Proof.
  intros r Hnet Hexec. rewrite bootstrap_run. rewrite decide_True by done.
  unfold startSandbox. run. fold start_sandbox_cmd. fold r. rewrite Hexec. simpl.
  by rewrite <- !app_assoc.
Qed.

(** The probe is bounded whatever the node answers: after the script
    and the handle, [startSandbox] makes at least one and at most nine
    block-header requests, and nothing else. *)
Lemma retry_attempt_bounded (tk : TezosToolkit) (timeouts : nat) :
  ∀ (errors : list failure) (w : World),
    ∃ k, (1 ≤ k ≤ S timeouts)%nat
         ∧ snd (retry_attempt (startSandbox_probe tk) timeouts errors w)
           = after_probes k w.
Proof.
  induction timeouts as [|n IH]; intros errors w;
    rewrite retry_attempt_unfold, startSandbox_probe_run;
    destruct (rpc_getBlockHeader (trace w) tk "2") as [u|e]; simpl.
  - exists 1%nat. split; [lia|done].
  - exists 1%nat. split; [lia|done].
  - exists 1%nat. split; [lia|done].
  - destruct (IH (errors ++ [External e]) (after_probes 1 w)) as (k & Hk & ->).
    exists (S k). split; [lia|]. apply after_probes_S.
Qed.

Theorem probe_requests_bounded (w : World) (s : InMemorySigner) :
  exec_err (child_exec (trace w) start_sandbox_cmd) = false →
  resolveAlias2Signer "bob" (store w) = Ok s →
  truthy (config_get (store w) (activeNetworkKey (store w) +:+ ".providerUrl")) = true →
  ∃ k, (1 ≤ k ≤ 9)%nat
       ∧ trace (snd (startSandbox w))
         = trace w ++ [EvExec start_sandbox_cmd; EvResolveSigner "bob"]
           ++ replicate k (EvGetBlockHeader "2").
Proof.
  intros Hexec Hs Hurl. rewrite (startSandbox_run w s) by done.
  destruct (retry_attempt_bounded (toolkit_of s (store w)) 8 [] (sandbox_launched w))
    as (k & Hk & Hw).
  exists k. split; [done|]. unfold bind, retry.
  destruct (retry_attempt _ 8 [] (sandbox_launched w)) as [[u|e] w1];
    simpl in *; subst w1; simpl; by rewrite <- app_assoc.
Qed.

(** The probe passes as soon as a request is answered, up to the ninth:
    with [k] failures, [k] at most 8, and an answer to request [k + 1],
    [startSandbox] completes after [k + 1] requests. *)
Theorem startSandbox_answered_within_nine (w : World) (s : InMemorySigner) (k : nat) :
  exec_err (child_exec (trace w) start_sandbox_cmd) = false →
  resolveAlias2Signer "bob" (store w) = Ok s →
  truthy (config_get (store w) (activeNetworkKey (store w) +:+ ".providerUrl")) = true →
  header_requests (trace w) = 0%nat →
  (k ≤ 8)%nat →
  (∀ h tk, (header_requests h < k)%nat → is_ok (rpc_getBlockHeader h tk "2") = false) →
  (∀ h tk, header_requests h = k → rpc_getBlockHeader h tk "2" = Ok tt) →
  fst (startSandbox w) = Ok tt
  ∧ header_requests (trace (snd (startSandbox w))) = S k.
Proof.
  intros Hexec Hs Hurl H0 Hk Hfail Hok.
  rewrite (startSandbox_passes w s k) by done. split; [done|].
  change (header_requests
            (trace (sandbox_launched w) ++ replicate (S k) (EvGetBlockHeader "2"))
          = S k).
  rewrite header_requests_launched. lia.
Qed.

End BootstrapMore.

Section BootstrapMoreExamples.

Import Demo.

Lemma bootstrap_store_witness :
  ∃ address,
    store (snd (bootstrap (EXT := externals 0 true) (world sandbox_config)))
    = <[inspectorKey (Externals := externals 0 true) sandbox_config := JString address]>
        sandbox_config
    ∧ config_get (store (snd (bootstrap (EXT := externals 0 true) (world sandbox_config))))
        (inspectorKey (Externals := externals 0 true) sandbox_config)
      = JString address.
Proof.
  exact (bootstrap_store (EXT := externals 0 true) (world sandbox_config)).
Defined.

Lemma bootstrap_without_sandbox_witness :
  ∃ rest,
    trace (snd (bootstrap (EXT := externals 0 true)
                  (world (<["activeNetwork" := JString "testnet"]> sandbox_config))))
    = [] ++ EvResolveSigner "bob" :: rest
    ∧ Forall (fun ev => is_sandbox_event ev = false) rest.
Proof.
  apply (bootstrap_without_sandbox (EXT := externals 0 true)
           (world (<["activeNetwork" := JString "testnet"]> sandbox_config))).
  vm_compute. discriminate.
Defined.

(** A world whose start script fails. *)
Let failing_script : Externals :=
  {| activeNetworkKey := activeNetworkKey (Externals := externals 0 true);
     inspectorKey := inspectorKey (Externals := externals 0 true);
     suggestCommand := suggestCommand (Externals := externals 0 true);
     loadFile := loadFile (Externals := externals 0 true);
     resolveAlias2Signer := resolveAlias2Signer (Externals := externals 0 true);
     resolveAlias2Address := resolveAlias2Address (Externals := externals 0 true);
     path_join_dirname := path_join_dirname (Externals := externals 0 true);
     kleur_text := kleur_text (Externals := externals 0 true);
     JSON_stringify := JSON_stringify (Externals := externals 0 true);
     JSON_stringify_indent := JSON_stringify_indent (Externals := externals 0 true);
     child_exec := fun _ _ =>
       {| exec_err := true; stdout := ""; errout := "docker: not found" |};
     publicKeyHash := publicKeyHash (Externals := externals 0 true);
     rpc_getBlockHeader := rpc_getBlockHeader (Externals := externals 0 true);
     contract_originate := contract_originate (Externals := externals 0 true);
     originationOp_contract := originationOp_contract (Externals := externals 0 true);
     contract_at := contract_at (Externals := externals 0 true);
     query_send := query_send (Externals := externals 0 true);
     op_confirmation := op_confirmation (Externals := externals 0 true);
     inspector_storage := inspector_storage (Externals := externals 0 true) |}.

Lemma bootstrap_script_failure_witness :
  bootstrap (EXT := failing_script) (world sandbox_config)
  = (Err Reject_undefined,
     {| store := sandbox_config;
        console := ["failed to start sandbox"; "docker: not found";
                    "failed to start. {}"];
        trace := [EvExec start_sandbox_cmd] |}).
Proof.
  apply (bootstrap_script_failure (EXT := failing_script) (world sandbox_config));
    reflexivity.
Defined.

Lemma probe_requests_bounded_witness :
  ∃ k, (1 ≤ k ≤ 9)%nat
       ∧ trace (snd (startSandbox (EXT := externals 3 true) (world sandbox_config)))
         = [] ++ [EvExec start_sandbox_cmd; EvResolveSigner "bob"]
           ++ replicate k (EvGetBlockHeader "2").
Proof.
  apply (probe_requests_bounded (EXT := externals 3 true) (world sandbox_config)
           bob_signer); reflexivity.
Defined.

Lemma startSandbox_answered_within_nine_witness :
  fst (startSandbox (EXT := externals 8 true) (world sandbox_config)) = Ok tt
  ∧ header_requests (trace (snd (startSandbox (EXT := externals 8 true)
                                   (world sandbox_config)))) = 9%nat.
Proof.
  apply (startSandbox_answered_within_nine (EXT := externals 8 true)
           (world sandbox_config) bob_signer 8); try reflexivity.
  - intros h tk Hlt. simpl. apply Nat.ltb_lt in Hlt. by rewrite Hlt.
  - intros h tk Heq. simpl. by rewrite Heq.
Defined.

End BootstrapMoreExamples.

(** ** Token descriptors, on their text *)

Section TokensOnText.

Context `{BN : BigNumberLib}.

(** Every string is its comma-free pieces joined with commas. *)
Lemma descriptor_pieces (sep : ascii) (s : string) :
  ∃ pieces, pieces ≠ []
            ∧ Forall (fun p => count_char sep p = 0%nat) pieces
            ∧ s = join_with sep pieces.
Proof.
  induction s as [|c s (pieces & Hne & Hfree & ->)].
  - exists [EmptyString]. repeat split; [done|by repeat constructor].
  - destruct pieces as [|p ps]; [done|].
    apply Forall_cons in Hfree as [Hp Hps].
    destruct (Ascii.eqb c sep) eqn:Ec.
    + apply Ascii.eqb_eq in Ec as ->.
      exists (EmptyString :: p :: ps). repeat split; [done|by repeat constructor].
    + exists (String c p :: ps). split; [done|]. split.
      * constructor; [|done]. simpl. by rewrite Ec.
      * by destruct ps.
Qed.

(** Cutting the joined pieces gives the pieces. *)
Lemma split_of_join (sep : ascii) (pieces : list string) :
  pieces ≠ [] →
  Forall (fun p => count_char sep p = 0%nat) pieces →
  Js.split sep (join_with sep pieces) = pieces.
Proof.
  induction pieces as [|p ps IH]; [done|]. intros _ Hfree.
  apply Forall_cons in Hfree as [Hp Hps].
  destruct ps as [|q ps].
  - by apply split_without_separator.
  - change (join_with sep (p :: q :: ps))
      with (p +:+ String sep (join_with sep (q :: ps))).
    rewrite split_at_separator by done. by rewrite IH.
Qed.

(** C10 (amended).  A descriptor is its comma-separated pieces.
    [parseTokens] puts in front of the tokens it is given, which follow
    unchanged and in order, the token whose id, symbol and name are the
    first three pieces, trimmed; the token has decimals 0; its extras hold
    ['ipfs_cid'] exactly when there is a fourth piece that is not empty
    once trimmed, with the trimmed piece as value, and hold nothing else.
    Every descriptor is such a text, and the tokens of a command line come
    out in the reverse order of their descriptors. *)
Theorem parseTokens_on_descriptor_text (pieces : list string)
    (tokens : list TokenMetadata) :
  pieces ≠ [] →
  Forall (fun p => count_char "," p = 0%nat) pieces →
  parseTokens (join_with "," pieces) tokens
  = {| token_id := bn_of_string (Js.trim <$> pieces !! 0%nat);
       symbol := Js.trim <$> pieces !! 1%nat;
       name := Js.trim <$> pieces !! 2%nat;
       decimals := bn_of_number 0;
       extras := match Js.trim <$> pieces !! 3%nat with
                 | Some (String c cid) => <["ipfs_cid" := String c cid]> ∅
                 | _ => ∅
                 end |} :: tokens
  ∧ (∀ descriptor,
       ∃ ps, ps ≠ [] ∧ Forall (fun p => count_char "," p = 0%nat) ps
             ∧ descriptor = join_with "," ps)
  ∧ (∀ descriptors,
       compile_tokens descriptors
       = rev (concat ((fun d => parseTokens d []) <$> descriptors))).
Proof.
  intros Hne Hfree. split; [|split].
  - unfold parseTokens, parseTokens_token, fields.
    rewrite split_of_join by done. rewrite !list_lookup_fmap.
    by destruct (pieces !! 3%nat) as [p3|]; simpl;
      [destruct (Js.trim p3)|].
  - intros descriptor. apply descriptor_pieces.
  - induction descriptors as [|d ds IH] using rev_ind; [done|].
    rewrite compile_tokens_snoc, IH, fmap_app, concat_app, rev_app_distr. done.
Qed.

End TokensOnText.

Section TokensOnTextExamples.

Import Demo.

(** C10, as the specification states it, fails: a fourth field of blanks
    is given and is not empty, and the token gets no ['ipfs_cid']. *)
Lemma parseTokens_blank_fourth_field :
  join_with "," ["1"; "TK"; "name"; "  "] = "1,TK,name,  "
  ∧ "  " ≠ EmptyString
  ∧ ∃ token, parseTokens "1,TK,name,  " [] = [token]
             ∧ extras token !! "ipfs_cid" = None.
Proof.
  split; [reflexivity|]. split; [discriminate|].
  eexists. split; [reflexivity|]. vm_compute. reflexivity.
Qed.

Lemma parseTokens_on_descriptor_text_witness :
  parseTokens (join_with "," ["1"; " TK"; "name "; " Qm "]) []
  = [ {| token_id := bn_of_string (Some "1");
         symbol := Some "TK";
         name := Some "name";
         decimals := bn_of_number 0;
         extras := <["ipfs_cid" := "Qm"]> ∅ |} ].
Proof.
  apply (parseTokens_on_descriptor_text ["1"; " TK"; "name "; " Qm "] []).
  - discriminate.
  - repeat constructor.
Defined.

End TokensOnTextExamples.

(** ** Operator descriptors that are not well formed *)

Section MalformedOperators.

Import Demo.

(** C4 (the code departs from it).  The claim: a descriptor that fails to
    parse makes the whole call fail.  The descriptors ["alice"] (no token
    id) and ["alice,not-a-number"] do not have the format the code itself
    prints, ['operator_alias_or_address, token_id'], and yet the call
    returns the whole list, with NaN as token id, and prints nothing:
    neither [split] nor [new BigNumber] throws, so the [catch] is reached
    by a failed look-up only. *)
Theorem resolveOperators_accepts_malformed_entries :
  resolveOperators (EXT := externals 0 true) "tz1bob" ["bob,1"; "alice"]
    sandbox_config (world sandbox_config)
  = (Ok [ {| op_owner := "tz1bob"; op_operator := "tz1bob";
             op_token_id := Some 1%Z |};
          {| op_owner := "tz1bob"; op_operator := "tz1alice";
             op_token_id := None |} ],
     {| store := sandbox_config;
        console := [];
        trace := [EvResolveAddress "bob"; EvResolveAddress "alice"] |})
  ∧ resolveOperators (EXT := externals 0 true) "tz1bob"
      ["bob,1"; "alice,not-a-number"] sandbox_config (world sandbox_config)
    = (Ok [ {| op_owner := "tz1bob"; op_operator := "tz1bob";
               op_token_id := Some 1%Z |};
            {| op_owner := "tz1bob"; op_operator := "tz1alice";
               op_token_id := None |} ],
       {| store := sandbox_config;
          console := [];
          trace := [EvResolveAddress "bob"; EvResolveAddress "alice"] |}).
Proof. split; reflexivity. Qed.

End MalformedOperators.

(** ** The first sender of a compiled batch *)

Section FirstSender.

Context `{BN : BigNumberLib}.

(** A compiled batch, in full: its first entry is from the sender of the
    first descriptor and collects the destinations of all the descriptors
    of that sender, in their order; every other descriptor is an entry of
    its own after it, in order.  So every later descriptor of the first
    sender is merged into the first entry, and that sender has no other
    entry. *)
Theorem compile_transfers_by_first_sender (d0 : string) (ds : list string) :
  compile_transfers (d0 :: ds)
  = {| from_ := from_ (parseTransfer_tx d0);
       txs := concat ((fun d => txs (parseTransfer_tx d))
                      <$> filter (fun d => from_ (parseTransfer_tx d)
                                           = from_ (parseTransfer_tx d0))
                            (d0 :: ds)) |}
    :: (parseTransfer_tx
        <$> filter (fun d => from_ (parseTransfer_tx d) ≠ from_ (parseTransfer_tx d0))
              ds).
Proof.
  induction ds as [|d ds IH] using rev_ind.
  - rewrite (filter_cons_True
               (fun d => from_ (parseTransfer_tx d) = from_ (parseTransfer_tx d0))
               d0 [] eq_refl).
    change (compile_transfers [d0]) with [parseTransfer_tx d0].
    unfold parseTransfer_tx. simpl. reflexivity.
  - change (d0 :: ds ++ [d]) with ((d0 :: ds) ++ [d]).
    rewrite compile_transfers_snoc, IH, parseTransfers_first_entry. cbv zeta.
    rewrite !filter_app. cbn [from_ txs].
    destruct (decide (from_ (parseTransfer_tx d0) = from_ (parseTransfer_tx d)))
      as [Heq|Hne].
    + rewrite (filter_cons_True
                 (fun d => from_ (parseTransfer_tx d) = from_ (parseTransfer_tx d0))
                 d []) by done.
      rewrite (filter_cons_False
                 (fun d => from_ (parseTransfer_tx d) ≠ from_ (parseTransfer_tx d0))
                 d []) by (intros H; by apply H).
      rewrite !filter_nil, fmap_app, concat_app, app_nil_r.
      change (concat ((fun d => txs (parseTransfer_tx d)) <$> [d]))
        with (txs (parseTransfer_tx d) ++ []).
      by rewrite app_nil_r.
    + rewrite (filter_cons_False
                 (fun d => from_ (parseTransfer_tx d) = from_ (parseTransfer_tx d0))
                 d []) by (intros H; by apply Hne).
      rewrite (filter_cons_True
                 (fun d => from_ (parseTransfer_tx d) ≠ from_ (parseTransfer_tx d0))
                 d []) by (intros H; by apply Hne).
      by rewrite !filter_nil, app_nil_r, fmap_app.
Qed.

End FirstSender.

(** ** What bootstrap records *)

Section BootstrapRecord.

Context `{BN : BigNumberLib} {EXT : Externals}.




End BootstrapRecord.

Section BootstrapRecordExamples.

Import Demo.


End BootstrapRecordExamples.
